(** * ModbusConnection: session lifecycle and retry policy

    A shallow embedding of [src/src/modbus_connection.cpp] and of the class
    declared in [src/include/libmodbus_cpp/modbus_connection.hpp].

    The C++ code is a thin, stateful layer over the C library libmodbus and a
    few POSIX calls.  None of those belong to the repository, so they are
    taken as an interface ([Libmodbus]) over an abstract environment state:
    every theorem holds for every implementation of that interface.  A
    scripted test double ([Stub]) implements it for concrete runs.

    The embedding is by explicit state passing.  A [machine] pairs the
    environment with the log of the external calls made so far; a member
    function of the class becomes a function from the object's fields (a
    [session]) to a computation on the machine that returns the result and
    the updated fields. *)

From Stdlib Require Import ZArith String List Lia Bool.
From stdpp Require Import base option list gmap strings.
Import ListNotations.

Local Open Scope Z_scope.

(** ** The external interface *)

(** A [modbus_t] names one context object allocated by the library; a
    [modbus_t *] is [None] for [nullptr]. *)
Definition modbus_t := positive.
Definition modbus_ptr := option modbus_t.

(** The external calls, as they are recorded in the log.  Scalar arguments
    are recorded; buffers are not. *)
Inductive call : Type :=
| call_modbus_new_tcp (ip_address : string) (port : Z)
| call_modbus_free (ctx : modbus_ptr)
| call_modbus_connect (ctx : modbus_ptr)
| call_modbus_close (ctx : modbus_ptr)
| call_modbus_get_socket (ctx : modbus_ptr)
| call_recv (sockfd len flags : Z)
| call_usleep (usec : Z)
| call_modbus_set_slave (ctx : modbus_ptr) (slave : Z)
| call_modbus_set_response_timeout (ctx : modbus_ptr) (to_sec to_usec : Z)
| call_modbus_read_registers (ctx : modbus_ptr) (addr nb : Z)
| call_modbus_write_register (ctx : modbus_ptr) (addr value : Z)
| call_modbus_write_registers (ctx : modbus_ptr) (addr nb : Z)
| call_modbus_read_bits (ctx : modbus_ptr) (addr nb : Z)
| call_modbus_write_bit (ctx : modbus_ptr) (addr status : Z)
| call_modbus_write_bits (ctx : modbus_ptr) (addr nb : Z).

(** libmodbus, errno and the socket layer over an environment [W].  The
    constants come from [<modbus/modbus.h>], [<cerrno>] and
    [<sys/socket.h>]; the code only compares against them, so they are
    parameters.  A function that writes through a [dest] pointer takes the
    content of the destination and returns its new content; [errno] is read
    from the environment after a call.  [moved_from s] is the content
    that [std::move] leaves in a moved-from [std::string] that held [s]
    (valid but unspecified). *)
Class Libmodbus (W : Type) : Type := {
  EMBBADDATA : Z;
  EMBMDATA : Z;
  EMBBADCRC : Z;
  EMBBADEXC : Z;
  EMBUNKEXC : Z;
  EWOULDBLOCK : Z;
  EAGAIN : Z;
  MSG_DONTWAIT : Z;
  errno : W -> Z;
  modbus_strerror : Z -> string;
  modbus_new_tcp : string -> Z -> W -> modbus_ptr * W;
  modbus_free : modbus_ptr -> W -> W;
  modbus_connect : modbus_ptr -> W -> Z * W;
  modbus_close : modbus_ptr -> W -> W;
  modbus_get_socket : modbus_ptr -> W -> Z * W;
  recv : Z -> Z -> Z -> W -> Z * W;
  usleep : Z -> W -> W;
  modbus_set_slave : modbus_ptr -> Z -> W -> Z * W;
  modbus_set_response_timeout : modbus_ptr -> Z -> Z -> W -> W;
  modbus_read_registers : modbus_ptr -> Z -> Z -> list Z -> W -> Z * list Z * W;
  modbus_write_register : modbus_ptr -> Z -> Z -> W -> Z * W;
  modbus_write_registers : modbus_ptr -> Z -> Z -> list Z -> W -> Z * W;
  modbus_read_bits : modbus_ptr -> Z -> Z -> list Z -> W -> Z * list Z * W;
  modbus_write_bit : modbus_ptr -> Z -> Z -> W -> Z * W;
  modbus_write_bits : modbus_ptr -> Z -> Z -> list Z -> W -> Z * W;
  moved_from : string -> string
}.

(** ** The machine and its monad *)

Record machine (W : Type) : Type := Machine {
  world : W;
  calls : list call
}.
Arguments Machine {W} _ _.
Arguments world {W} _.
Arguments calls {W} _.

(** A computation either returns a value and a machine, or runs out of
    fuel ([None]); only the unbounded loop of [drain_socket_nonblocking]
    can do the latter. *)
Definition M (W A : Type) : Type := machine W -> option (A * machine W).

Definition ret {W A} (a : A) : M W A := fun m => Some (a, m).

Definition bind {W A B} (c : M W A) (k : A -> M W B) : M W B :=
  fun m => match c m with
           | Some (a, m') => k a m'
           | None => None
           end.

Definition out_of_fuel {W A} : M W A := fun _ => None.

Declare Scope modbus_scope.
Delimit Scope modbus_scope with modbus.
Notation "'do' x <- c ; k" := (bind c (fun x => k))
  (at level 10, x name, c at level 100, k at level 200) : modbus_scope.
Notation "'do' ' p <- c ; k" := (bind c (fun p => k))
  (at level 10, p pattern, c at level 100, k at level 200) : modbus_scope.
Notation "'do_' c ; k" := (bind c (fun _ => k))
  (at level 10, c at level 100, k at level 200) : modbus_scope.
Local Open Scope modbus_scope.

(** An external call that returns a value: the environment answers and
    the call is appended to the log. *)
Definition extern {W A} (c : call) (f : W -> A * W) : M W A :=
  fun m => let (a, w) := f (world m) in Some (a, Machine w (calls m ++ [c])).

(** An external call whose result is void or ignored. *)
Definition extern_ {W} (c : call) (f : W -> W) : M W unit :=
  fun m => Some (tt, Machine (f (world m)) (calls m ++ [c])).

Definition get_errno {W} `{Libmodbus W} : M W Z :=
  fun m => Some (errno (world m), m).

(** ** The object's fields *)

Record session : Type := Session {
  ctx_ : modbus_ptr;
  connected_ : bool;
  last_error_ : string
}.

Definition set_last_error (this : session) (msg : string) : session :=
  Session (ctx_ this) (connected_ this) msg.

Definition set_connected (this : session) (b : bool) : session :=
  Session (ctx_ this) b (last_error_ this).

(** A read or write call with its arguments; a reference or pointer
    argument stands for the content of the caller's memory at the call. *)
Inductive request : Type :=
| req_read_register (address value : Z)
| req_read_registers (address count : Z) (values : list Z)
| req_write_register (address value : Z)
| req_write_registers (address count : Z) (values : list Z)
| req_read_coil (address : Z) (value : bool)
| req_read_coils (address count : Z) (values : list Z)
| req_write_coil (address : Z) (state : bool)
| req_write_coils (address count : Z) (values : list Z).

(** The caller's output memory: [uint16_t &], [uint16_t *] or [uint8_t *],
    [bool &], or none for a write. *)
Inductive out_param : Type :=
| out_value (value : Z)
| out_values (values : list Z)
| out_flag (value : bool)
| out_none.

(** The programs that use the class: objects are named by [nat]. *)
Inductive command : Type :=
| cmd_construct (this : nat) (ip_address : string) (port : Z)
| cmd_move_construct (this other : nat)
| cmd_move_assign (this other : nat)
| cmd_destroy (this : nat)
| cmd_connect (this : nat)
| cmd_disconnect (this : nat)
| cmd_request (this : nat) (q : request)
| cmd_set_slave_id (this : nat) (slave_id : Z)
| cmd_set_response_timeout (this : nat) (seconds microseconds : Z).

(** The member functions that can be called on one object after its
    construction (moves and destruction apart). *)
Inductive member_call : Type :=
| call_connect
| call_disconnect
| call_request (q : request)
| call_set_slave_id (slave_id : Z)
| call_set_response_timeout (seconds microseconds : Z).

Section Code.
Context {W : Type} `{L : Libmodbus W}.

(** ** The helpers of the anonymous namespace *)

Definition is_retryable_modbus_data_error (error_code : Z) : bool :=
  (error_code =? EMBBADDATA) ||
  (error_code =? EMBMDATA) ||
  (error_code =? EMBBADCRC) ||
  (error_code =? EMBBADEXC) ||
  (error_code =? EMBUNKEXC).

(** The [while (true)] loop of [drain_socket_nonblocking]; [fuel] bounds
    the number of [recv] calls.  The received bytes land in a local
    buffer and are dropped. *)
Fixpoint drain_loop (fuel : nat) (socket_fd : Z) : M W unit :=
  match fuel with
  | O => out_of_fuel
  | S fuel' =>
      do bytes_read <- extern (call_recv socket_fd 256 MSG_DONTWAIT)
                              (recv socket_fd 256 MSG_DONTWAIT);
      if bytes_read >? 0 then drain_loop fuel' socket_fd
      else if bytes_read =? 0 then ret tt
      else
        do e <- get_errno;
        if (e =? EAGAIN) || (e =? EWOULDBLOCK) then ret tt
        else ret tt
  end.

Definition drain_socket_nonblocking (fuel : nat) (ctx : modbus_ptr) : M W unit :=
  do socket_fd <- extern (call_modbus_get_socket ctx) (modbus_get_socket ctx);
  if socket_fd <? 0 then ret tt
  else drain_loop fuel socket_fd.

Definition max_attempts : Z := 2.

(** The [for] loop of [execute_with_data_error_retry].  [iterations] is
    the number of iterations the loop condition still admits; the result
    is [Some b] when the body executed [return b] and [None] when the
    loop ran to its end.  [B] is the memory the closure captured by
    reference; [last_error] is the [std::string &] argument. *)
Fixpoint retry_loop {B : Type} (iterations : nat) (attempt : Z)
    (fuel : nat) (ctx : modbus_ptr) (last_error : string)
    (error_prefix : string) (operation : B -> M W (Z * B)) (b : B)
    : M W (option bool * string * B) :=
  match iterations with
  | O => ret (None, last_error, b)
  | S iterations' =>
      do '(rc, b1) <- operation b;
      if negb (rc =? -1) then ret (Some true, last_error, b1)
      else
        do error_code <- get_errno;
        if (attempt =? 0) && is_retryable_modbus_data_error error_code then
          do_ drain_socket_nonblocking fuel ctx;
          retry_loop iterations' (attempt + 1) fuel ctx last_error
                     error_prefix operation b1
        else
          ret (Some false, error_prefix +:+ modbus_strerror error_code, b1)
  end.

Definition execute_with_data_error_retry {B : Type} (fuel : nat)
    (ctx : modbus_ptr) (last_error : string) (error_prefix : string)
    (operation : B -> M W (Z * B)) (b : B) : M W (bool * string * B) :=
  do '(returned, last_error1, b1) <-
      retry_loop (Z.to_nat max_attempts) 0 fuel ctx last_error
                 error_prefix operation b;
  match returned with
  | Some result => ret (result, last_error1, b1)
  | None => ret (false, error_prefix +:+ "retry exhausted", b1)
  end.

(** ** The member functions of [ModbusConnection] *)

Definition is_null (ctx : modbus_ptr) : bool :=
  match ctx with
  | None => true
  | Some _ => false
  end.

(** The constructor.  The initializer list sets [ctx_] to [nullptr] and
    [connected_] to [false]; [last_error_] starts empty. *)
Definition ModbusConnection (ip_address : string) (port : Z) : M W session :=
  let this := Session None false "" in
  do ctx <- extern (call_modbus_new_tcp ip_address port)
                   (modbus_new_tcp ip_address port);
  let this := Session ctx (connected_ this) (last_error_ this) in
  if is_null (ctx_ this)
  then ret (set_last_error this "Failed to create MODBUS context")
  else ret this.

Definition disconnect (this : session) : M W session :=
  if negb (is_null (ctx_ this)) && connected_ this then
    do_ extern_ (call_modbus_close (ctx_ this)) (modbus_close (ctx_ this));
    ret (set_connected this false)
  else ret this.

(** The destructor; the result is the fields as the body leaves them. *)
Definition ModbusConnection_destructor (this : session) : M W session :=
  do this <- (if connected_ this then disconnect this else ret this);
  if negb (is_null (ctx_ this)) then
    do_ extern_ (call_modbus_free (ctx_ this)) (modbus_free (ctx_ this));
    ret (Session None (connected_ this) (last_error_ this))
  else ret this.

(** The move constructor: the new object, and [other] as it is left. *)
Definition ModbusConnection_move (other : session) : session * session :=
  let this := Session (ctx_ other) (connected_ other) (last_error_ other) in
  let other := set_last_error other (moved_from (last_error_ other)) in
  let other := Session None (connected_ other) (last_error_ other) in
  let other := set_connected other false in
  (this, other).

(** Move assignment between two distinct objects ([this != &other]);
    self-assignment is decided where the objects live, in [exec]. *)
Definition operator_assign (this other : session) : M W (session * session) :=
  do this <- (if connected_ this then disconnect this else ret this);
  do_ (if negb (is_null (ctx_ this))
       then extern_ (call_modbus_free (ctx_ this)) (modbus_free (ctx_ this))
       else ret tt);
  let this := Session (ctx_ other) (connected_ this) (last_error_ this) in
  let this := set_connected this (connected_ other) in
  let this := set_last_error this (last_error_ other) in
  let other := set_last_error other (moved_from (last_error_ other)) in
  let other := Session None (connected_ other) (last_error_ other) in
  let other := set_connected other false in
  ret (this, other).

Definition max_retries : Z := 3.

(** The [for] loop of [connect], with the same convention as
    [retry_loop]. *)
Fixpoint connect_loop (iterations : nat) (attempt : Z) (this : session)
    : M W (option bool * session) :=
  match iterations with
  | O => ret (None, this)
  | S iterations' =>
      do rc <- extern (call_modbus_connect (ctx_ this))
                      (modbus_connect (ctx_ this));
      if rc =? 0 then ret (Some true, set_connected this true)
      else
        do err <- get_errno;
        let fail :=
          ret (Some false,
               set_last_error this ("Connection failed: " +:+ modbus_strerror err)) in
        if (err =? EWOULDBLOCK) || (err =? EAGAIN) then
          if attempt <? max_retries - 1 then
            do_ extern_ (call_usleep 100000) (usleep 100000);
            connect_loop iterations' (attempt + 1) this
          else fail
        else fail
  end.

Definition connect (this : session) : M W (bool * session) :=
  if is_null (ctx_ this) then
    ret (false, set_last_error this "Invalid MODBUS context")
  else if connected_ this then ret (true, this)
  else
    do '(returned, this) <- connect_loop (Z.to_nat max_retries) 0 this;
    match returned with
    | Some result => ret (result, this)
    | None => ret (false, this)
    end.

(** *** The read and write wrappers

    Each wrapper hands [execute_with_data_error_retry] a closure around
    one libmodbus primitive.  The closure runs on the memory it can write
    through: the destination of a read, nothing for a write.
    [uint16_t &value] is passed to the primitive as a destination of one
    cell. *)

Definition read_register (fuel : nat) (this : session) (address value : Z)
    : M W (bool * session * Z) :=
  if negb (connected_ this) then
    ret (false, set_last_error this "Not connected", value)
  else
    do '(result, last_error, dest) <-
       execute_with_data_error_retry fuel (ctx_ this) (last_error_ this)
         "Read failed: "
         (fun dest => extern (call_modbus_read_registers (ctx_ this) address 1)
                             (modbus_read_registers (ctx_ this) address 1 dest))
         [value];
    ret (result, set_last_error this last_error, hd value dest).

Definition read_registers (fuel : nat) (this : session)
    (address count : Z) (values : list Z) : M W (bool * session * list Z) :=
  if negb (connected_ this) then
    ret (false, set_last_error this "Not connected", values)
  else
    do '(result, last_error, dest) <-
       execute_with_data_error_retry fuel (ctx_ this) (last_error_ this)
         "Read failed: "
         (fun dest => extern (call_modbus_read_registers (ctx_ this) address count)
                             (modbus_read_registers (ctx_ this) address count dest))
         values;
    ret (result, set_last_error this last_error, dest).

Definition write_register (fuel : nat) (this : session) (address value : Z)
    : M W (bool * session) :=
  if negb (connected_ this) then
    ret (false, set_last_error this "Not connected")
  else
    do '(result, last_error, _) <-
       execute_with_data_error_retry fuel (ctx_ this) (last_error_ this)
         "Write failed: "
         (fun none : list Z =>
            do rc <- extern (call_modbus_write_register (ctx_ this) address value)
                            (modbus_write_register (ctx_ this) address value);
            ret (rc, none))
         [];
    ret (result, set_last_error this last_error).

Definition write_registers (fuel : nat) (this : session)
    (address count : Z) (values : list Z) : M W (bool * session) :=
  if negb (connected_ this) then
    ret (false, set_last_error this "Not connected")
  else
    do '(result, last_error, _) <-
       execute_with_data_error_retry fuel (ctx_ this) (last_error_ this)
         "Write failed: "
         (fun none : list Z =>
            do rc <- extern (call_modbus_write_registers (ctx_ this) address count)
                            (modbus_write_registers (ctx_ this) address count values);
            ret (rc, none))
         [];
    ret (result, set_last_error this last_error).

Definition read_coil (fuel : nat) (this : session) (address : Z) (value : bool)
    : M W (bool * session * bool) :=
  if negb (connected_ this) then
    ret (false, set_last_error this "Not connected", value)
  else
    let coil_value := 0 in
    do '(success, last_error, dest) <-
       execute_with_data_error_retry fuel (ctx_ this) (last_error_ this)
         "Read coil failed: "
         (fun dest => extern (call_modbus_read_bits (ctx_ this) address 1)
                             (modbus_read_bits (ctx_ this) address 1 dest))
         [coil_value];
    let coil_value := hd coil_value dest in
    let this := set_last_error this last_error in
    if negb success then ret (false, this, value)
    else ret (true, this, negb (coil_value =? 0)).

Definition read_coils (fuel : nat) (this : session)
    (address count : Z) (values : list Z) : M W (bool * session * list Z) :=
  if negb (connected_ this) then
    ret (false, set_last_error this "Not connected", values)
  else
    do '(result, last_error, dest) <-
       execute_with_data_error_retry fuel (ctx_ this) (last_error_ this)
         "Read coils failed: "
         (fun dest => extern (call_modbus_read_bits (ctx_ this) address count)
                             (modbus_read_bits (ctx_ this) address count dest))
         values;
    ret (result, set_last_error this last_error, dest).

Definition write_coil (fuel : nat) (this : session) (address : Z) (state : bool)
    : M W (bool * session) :=
  if negb (connected_ this) then
    ret (false, set_last_error this "Not connected")
  else
    do '(result, last_error, _) <-
       execute_with_data_error_retry fuel (ctx_ this) (last_error_ this)
         "Write coil failed: "
         (fun none : list Z =>
            do rc <- extern (call_modbus_write_bit (ctx_ this) address
                                                   (if state then 1 else 0))
                            (modbus_write_bit (ctx_ this) address
                                              (if state then 1 else 0));
            ret (rc, none))
         [];
    ret (result, set_last_error this last_error).

Definition write_coils (fuel : nat) (this : session)
    (address count : Z) (values : list Z) : M W (bool * session) :=
  if negb (connected_ this) then
    ret (false, set_last_error this "Not connected")
  else
    do '(result, last_error, _) <-
       execute_with_data_error_retry fuel (ctx_ this) (last_error_ this)
         "Write coils failed: "
         (fun none : list Z =>
            do rc <- extern (call_modbus_write_bits (ctx_ this) address count)
                            (modbus_write_bits (ctx_ this) address count values);
            ret (rc, none))
         [];
    ret (result, set_last_error this last_error).

Definition set_slave_id (this : session) (slave_id : Z) : M W (bool * session) :=
  if is_null (ctx_ this) then
    ret (false, set_last_error this "Invalid MODBUS context")
  else
    do rc <- extern (call_modbus_set_slave (ctx_ this) slave_id)
                    (modbus_set_slave (ctx_ this) slave_id);
    if rc =? -1 then
      do e <- get_errno;
      ret (false, set_last_error this ("Set slave failed: " +:+ modbus_strerror e))
    else ret (true, this).

Definition set_response_timeout (this : session) (seconds microseconds : Z)
    : M W unit :=
  if negb (is_null (ctx_ this)) then
    extern_ (call_modbus_set_response_timeout (ctx_ this) seconds microseconds)
            (modbus_set_response_timeout (ctx_ this) seconds microseconds)
  else ret tt.

Definition is_connected (this : session) : bool := connected_ this.

Definition get_context (this : session) : modbus_ptr := ctx_ this.

Definition get_last_error (this : session) : string := last_error_ this.

(** ** A uniform view of the eight wrappers *)

Definition invoke (fuel : nat) (q : request) (this : session)
    : M W (bool * session * out_param) :=
  match q with
  | req_read_register address value =>
      do '(r, this, value) <- read_register fuel this address value;
      ret (r, this, out_value value)
  | req_read_registers address count values =>
      do '(r, this, values) <- read_registers fuel this address count values;
      ret (r, this, out_values values)
  | req_write_register address value =>
      do '(r, this) <- write_register fuel this address value;
      ret (r, this, out_none)
  | req_write_registers address count values =>
      do '(r, this) <- write_registers fuel this address count values;
      ret (r, this, out_none)
  | req_read_coil address value =>
      do '(r, this, value) <- read_coil fuel this address value;
      ret (r, this, out_flag value)
  | req_read_coils address count values =>
      do '(r, this, values) <- read_coils fuel this address count values;
      ret (r, this, out_values values)
  | req_write_coil address state =>
      do '(r, this) <- write_coil fuel this address state;
      ret (r, this, out_none)
  | req_write_coils address count values =>
      do '(r, this) <- write_coils fuel this address count values;
      ret (r, this, out_none)
  end.

(** The caller's output memory before the call. *)
Definition out_before (q : request) : out_param :=
  match q with
  | req_read_register _ value => out_value value
  | req_read_registers _ _ values => out_values values
  | req_read_coil _ value => out_flag value
  | req_read_coils _ _ values => out_values values
  | req_write_register _ _ | req_write_registers _ _ _
  | req_write_coil _ _ | req_write_coils _ _ _ => out_none
  end.

(** The message prefix the wrapper of [q] passes on. *)
Definition error_prefix (q : request) : string :=
  match q with
  | req_read_register _ _ | req_read_registers _ _ _ => "Read failed: "
  | req_write_register _ _ | req_write_registers _ _ _ => "Write failed: "
  | req_read_coil _ _ => "Read coil failed: "
  | req_read_coils _ _ _ => "Read coils failed: "
  | req_write_coil _ _ => "Write coil failed: "
  | req_write_coils _ _ _ => "Write coils failed: "
  end.

(** The memory the closure of [q] starts on. *)
Definition destination (q : request) : list Z :=
  match q with
  | req_read_register _ value => [value]
  | req_read_registers _ _ values => values
  | req_read_coil _ _ => [0]
  | req_read_coils _ _ values => values
  | req_write_register _ _ | req_write_registers _ _ _
  | req_write_coil _ _ | req_write_coils _ _ _ => []
  end.

(** The log entry of the primitive behind [q]. *)
Definition primitive_call (q : request) (ctx : modbus_ptr) : call :=
  match q with
  | req_read_register address _ => call_modbus_read_registers ctx address 1
  | req_read_registers address count _ =>
      call_modbus_read_registers ctx address count
  | req_write_register address value =>
      call_modbus_write_register ctx address value
  | req_write_registers address count _ =>
      call_modbus_write_registers ctx address count
  | req_read_coil address _ => call_modbus_read_bits ctx address 1
  | req_read_coils address count _ => call_modbus_read_bits ctx address count
  | req_write_coil address state =>
      call_modbus_write_bit ctx address (if state then 1 else 0)
  | req_write_coils address count _ => call_modbus_write_bits ctx address count
  end.

(** One attempt of [q]: the closure its wrapper builds. *)
Definition attempt (q : request) (ctx : modbus_ptr) (dest : list Z)
    : M W (Z * list Z) :=
  match q with
  | req_read_register address _ =>
      extern (call_modbus_read_registers ctx address 1)
             (modbus_read_registers ctx address 1 dest)
  | req_read_registers address count _ =>
      extern (call_modbus_read_registers ctx address count)
             (modbus_read_registers ctx address count dest)
  | req_write_register address value =>
      do rc <- extern (call_modbus_write_register ctx address value)
                      (modbus_write_register ctx address value);
      ret (rc, dest)
  | req_write_registers address count values =>
      do rc <- extern (call_modbus_write_registers ctx address count)
                      (modbus_write_registers ctx address count values);
      ret (rc, dest)
  | req_read_coil address _ =>
      extern (call_modbus_read_bits ctx address 1)
             (modbus_read_bits ctx address 1 dest)
  | req_read_coils address count _ =>
      extern (call_modbus_read_bits ctx address count)
             (modbus_read_bits ctx address count dest)
  | req_write_coil address state =>
      do rc <- extern (call_modbus_write_bit ctx address (if state then 1 else 0))
                      (modbus_write_bit ctx address (if state then 1 else 0));
      ret (rc, dest)
  | req_write_coils address count values =>
      do rc <- extern (call_modbus_write_bits ctx address count)
                      (modbus_write_bits ctx address count values);
      ret (rc, dest)
  end.

(** The caller's output memory after the wrapper of [q] returned [result]
    with the closure's memory at [dest]. *)
Definition out_after (q : request) (result : bool) (dest : list Z) : out_param :=
  match q with
  | req_read_register _ value => out_value (hd value dest)
  | req_read_registers _ _ _ => out_values dest
  | req_read_coil _ value =>
      out_flag (if result then negb (hd 0 dest =? 0) else value)
  | req_read_coils _ _ _ => out_values dest
  | req_write_register _ _ | req_write_registers _ _ _
  | req_write_coil _ _ | req_write_coils _ _ _ => out_none
  end.

(** How many times the drain routine was entered, read off a log: it is
    the only caller of [modbus_get_socket] and calls it once, first. *)
Definition drain_invocations (log : list call) : nat :=
  length (List.filter (fun c => match c with
                                | call_modbus_get_socket _ => true
                                | _ => false
                                end) log).

(** How many times the transport was asked to open, and how long the
    code slept, read off a log. *)
Definition open_attempts (log : list call) : nat :=
  length (List.filter (fun c => match c with
                                | call_modbus_connect _ => true
                                | _ => false
                                end) log).

Definition sleeps (log : list call) : list Z :=
  omap (fun c => match c with
                 | call_usleep usec => Some usec
                 | _ => None
                 end) log.

(** ** Objects and programs *)

(** One member call on one object; [None] stands for a [void] result. *)
Definition member (fuel : nat) (c : member_call) (this : session)
    : M W (option bool * session * out_param) :=
  match c with
  | call_connect =>
      do '(r, this) <- connect this; ret (Some r, this, out_none)
  | call_disconnect =>
      do this <- disconnect this; ret (None, this, out_none)
  | call_request q =>
      do '(r, this, out) <- invoke fuel q this; ret (Some r, this, out)
  | call_set_slave_id slave_id =>
      do '(r, this) <- set_slave_id this slave_id; ret (Some r, this, out_none)
  | call_set_response_timeout seconds microseconds =>
      do_ set_response_timeout this seconds microseconds;
      ret (None, this, out_none)
  end.

(** A sequence of member calls on one object, with the results in order. *)
Fixpoint members (fuel : nat) (cs : list member_call) (this : session)
    : M W (list (option bool) * session) :=
  match cs with
  | [] => ret ([], this)
  | c :: cs' =>
      do '(r, this, _) <- member fuel c this;
      do '(rs, this) <- members fuel cs' this;
      ret (r :: rs, this)
  end.

(** One command on the live objects.  A command that names an object that
    does not exist, or constructs over a live one, is not a program of
    the language and is skipped. *)
Definition exec (fuel : nat) (c : command) (objs : gmap nat session)
    : M W (gmap nat session) :=
  match c with
  | cmd_construct this ip_address port =>
      match objs !! this with
      | Some _ => ret objs
      | None =>
          do s <- ModbusConnection ip_address port;
          ret (<[this := s]> objs)
      end
  | cmd_move_construct this other =>
      match objs !! this, objs !! other with
      | None, Some o =>
          let '(s, o) := ModbusConnection_move o in
          ret (<[this := s]> (<[other := o]> objs))
      | _, _ => ret objs
      end
  | cmd_move_assign this other =>
      match objs !! this, objs !! other with
      | Some s, Some o =>
          if decide (this = other) then ret objs
          else
            do '(s, o) <- operator_assign s o;
            ret (<[this := s]> (<[other := o]> objs))
      | _, _ => ret objs
      end
  | cmd_destroy this =>
      match objs !! this with
      | Some s =>
          do_ ModbusConnection_destructor s;
          ret (delete this objs)
      | None => ret objs
      end
  | cmd_connect this =>
      match objs !! this with
      | Some s => do '(_, s) <- connect s; ret (<[this := s]> objs)
      | None => ret objs
      end
  | cmd_disconnect this =>
      match objs !! this with
      | Some s => do s <- disconnect s; ret (<[this := s]> objs)
      | None => ret objs
      end
  | cmd_request this q =>
      match objs !! this with
      | Some s => do '(_, s, _) <- invoke fuel q s; ret (<[this := s]> objs)
      | None => ret objs
      end
  | cmd_set_slave_id this slave_id =>
      match objs !! this with
      | Some s => do '(_, s) <- set_slave_id s slave_id; ret (<[this := s]> objs)
      | None => ret objs
      end
  | cmd_set_response_timeout this seconds microseconds =>
      match objs !! this with
      | Some s => do_ set_response_timeout s seconds microseconds; ret objs
      | None => ret objs
      end
  end.

Fixpoint run (fuel : nat) (cs : list command) (objs : gmap nat session)
    : M W (gmap nat session) :=
  match cs with
  | [] => ret objs
  | c :: cs' => do objs <- exec fuel c objs; run fuel cs' objs
  end.

(** The socket [fd] reports no data, end of stream or an error after at
    most [k] reads that returned data. *)
Fixpoint quiet_within (k : nat) (fd : Z) (w : W) : Prop :=
  let (bytes_read, w') := recv fd 256 MSG_DONTWAIT w in
  bytes_read <= 0 \/
  match k with
  | O => False
  | S k' => quiet_within k' fd w'
  end.

(** What a member call answers on an object whose handle is null and
    whose [connected_] flag is false: the result, and the content of
    [last_error_] afterwards when it was [msg] before. *)
Definition dead_end_result (c : member_call) : option bool :=
  match c with
  | call_connect | call_set_slave_id _ | call_request _ => Some false
  | call_disconnect | call_set_response_timeout _ _ => None
  end.

Definition dead_end_message (msg : string) (c : member_call) : string :=
  match c with
  | call_connect | call_set_slave_id _ => "Invalid MODBUS context"
  | call_request _ => "Not connected"
  | call_disconnect | call_set_response_timeout _ _ => msg
  end.

(** The invariant of the data model. *)
Definition session_inv (s : session) : Prop :=
  connected_ s = true -> ctx_ s <> None.

(** The contract of the two read primitives of libmodbus on their
    destination: a call that answers -1 has not written to it. *)
Definition writes_dest_on_success_only : Prop :=
  (forall ctx addr nb dest w,
      let '(rc, dest', _) := modbus_read_registers ctx addr nb dest w in
      rc = -1 -> dest' = dest) /\
  (forall ctx addr nb dest w,
      let '(rc, dest', _) := modbus_read_bits ctx addr nb dest w in
      rc = -1 -> dest' = dest).

(** How many times a read or write primitive was called, read off a log. *)
Definition attempts_made (log : list call) : nat :=
  length (List.filter (fun c => match c with
                                | call_modbus_read_registers _ _ _
                                | call_modbus_write_register _ _ _
                                | call_modbus_write_registers _ _ _
                                | call_modbus_read_bits _ _ _
                                | call_modbus_write_bit _ _ _
                                | call_modbus_write_bits _ _ _ => true
                                | _ => false
                                end) log).

(** Single ownership: a non-null handle is held by one live object only. *)
Definition exclusive_handles (objs : gmap nat session) : Prop :=
  forall i j s t,
    i <> j -> objs !! i = Some s -> objs !! j = Some t ->
    ctx_ s <> None -> ctx_ s <> ctx_ t.

End Code.

(** ** A scripted test double

    The environment is a script of replies: every external call takes the
    next reply, whatever the call is.  A reply gives the value returned,
    the value left in [errno], and what a read primitive that succeeds
    writes to its destination (nothing when [None]; like libmodbus, a
    read that answers -1 writes nothing).  When the script is exhausted every
    call returns 0 and leaves [errno] alone.  The numeric constants are
    those of libmodbus 3.1 and of Linux; [strerror] knows the few codes the
    examples use. *)
Module Stub.

Record reply : Type := Reply {
  rc : Z;
  err : Z;
  data : option (list Z)
}.

Record t : Type := Make {
  current_errno : Z;
  script : list reply
}.

Definition next (w : t) : reply * t :=
  match script w with
  | [] => (Reply 0 (current_errno w) None, w)
  | r :: rs => (r, Make (err r) rs)
  end.

Definition returns_int (w : t) : Z * t :=
  let (r, w') := next w in (rc r, w').

Definition returns_void (w : t) : t := snd (next w).

Definition returns_ptr (w : t) : modbus_ptr * t :=
  let (r, w') := next w in
  ((if rc r <=? 0 then None else Some (Z.to_pos (rc r))), w').

Definition reads (dest : list Z) (w : t) : Z * list Z * t :=
  let (r, w') := next w in
  (rc r,
   (if rc r =? -1 then dest
    else match data r with Some d => d | None => dest end), w').

Definition MODBUS_ENOBASE : Z := 112345678.
Definition EMBXGTAR : Z := MODBUS_ENOBASE + 11.
Definition ETIMEDOUT : Z := 110.
Definition ECONNREFUSED : Z := 111.

Definition strerror (e : Z) : string :=
  if e =? 11 then "Resource temporarily unavailable"
  else if e =? ETIMEDOUT then "Connection timed out"
  else if e =? ECONNREFUSED then "Connection refused"
  else if e =? EMBXGTAR + 1 then "Invalid CRC"
  else if e =? EMBXGTAR + 2 then "Invalid data"
  else if e =? EMBXGTAR + 3 then "Invalid exception code"
  else if e =? EMBXGTAR + 5 then "Too many data"
  else "Unknown error".

#[global] Instance libmodbus : Libmodbus t := {|
  EMBBADCRC := EMBXGTAR + 1;
  EMBBADDATA := EMBXGTAR + 2;
  EMBBADEXC := EMBXGTAR + 3;
  EMBUNKEXC := EMBXGTAR + 4;
  EMBMDATA := EMBXGTAR + 5;
  EWOULDBLOCK := 11;
  EAGAIN := 11;
  MSG_DONTWAIT := 64;
  errno := current_errno;
  modbus_strerror := strerror;
  modbus_new_tcp := fun _ _ => returns_ptr;
  modbus_free := fun _ => returns_void;
  modbus_connect := fun _ => returns_int;
  modbus_close := fun _ => returns_void;
  modbus_get_socket := fun _ => returns_int;
  recv := fun _ _ _ => returns_int;
  usleep := fun _ => returns_void;
  modbus_set_slave := fun _ _ => returns_int;
  modbus_set_response_timeout := fun _ _ _ => returns_void;
  modbus_read_registers := fun _ _ _ => reads;
  modbus_write_register := fun _ _ _ => returns_int;
  modbus_write_registers := fun _ _ _ _ => returns_int;
  modbus_read_bits := fun _ _ _ => reads;
  modbus_write_bit := fun _ _ _ => returns_int;
  modbus_write_bits := fun _ _ _ _ => returns_int;
  moved_from := fun _ => ""
|}.

(** A machine that starts on [replies] with an empty log. *)
Definition boot (replies : list reply) : machine t :=
  Machine (Make 0 replies) [].

Definition ok (v : Z) : reply := Reply v 0 None.
Definition fails (e : Z) : reply := Reply (-1) e None.

(** The machine a computation ends on ([m] itself when it runs out of
    fuel). *)
Definition after {A : Type} (c : M t A) (m : machine t) : machine t :=
  match c m with
  | Some (_, m') => m'
  | None => m
  end.

(** A connected session on handle 1 that remembers an earlier failure,
    and a disconnected one. *)
Definition handle : modbus_ptr := Some 1%positive.
Definition online : session :=
  Session handle true "Read failed: Connection timed out".
Definition offline : session := Session handle false "".

(** A register read that meets a bad checksum, drains two chunks from
    socket 4 and then reads 42. *)
Definition read7 : request := req_read_register 7 0.
Definition noisy_then_good : list reply :=
  [fails EMBBADCRC; ok 4; ok 3; fails EAGAIN; Reply 1 0 (Some [42])].

(** The same, with a bad exception code on the second attempt. *)
Definition noisy_twice : list reply :=
  [fails EMBBADCRC; ok 4; ok 3; fails EAGAIN; fails EMBBADEXC].

(** A read that times out. *)
Definition timed_out : list reply := [fails ETIMEDOUT].

(** A connected session on handle 1 with no error recorded, and one
    whose handle is null although the flag is set. *)
Definition clean : session := Session handle true "".
Definition orphan : session := Session None true "".

(** [modbus_connect] answers would-block three times. *)
Definition busy_thrice : list reply :=
  [fails EWOULDBLOCK; ok 0; fails EWOULDBLOCK; ok 0; fails EWOULDBLOCK].

(** A coil read that succeeds without writing to its destination. *)
Definition coil_unwritten : list reply := [ok 1].

(** [modbus_connect] answers would-block twice and then succeeds; the
    replies in between are those of [usleep]. *)
Definition busy_twice : list reply :=
  [fails EWOULDBLOCK; ok 0; fails EWOULDBLOCK; ok 0; ok 0].

(** A program on two objects: construct, connect, move out, write a coil
    through the new object, move back, destroy the moved-from one. *)
Definition program : list command :=
  [cmd_construct 0 "192.168.1.10" 502;
   cmd_connect 0;
   cmd_move_construct 1 0;
   cmd_request 1 (req_write_coil 3 true);
   cmd_move_assign 0 1;
   cmd_destroy 1].
Definition program_replies : list reply := [ok 1; ok 0; ok 1].

(** [modbus_connect] succeeds at once. *)
Definition opens_at_once : list reply := [ok 0].

(** A register read that yields 42 at once, and a coil read that yields
    the byte 255. *)
Definition good_read : list reply := [Reply 1 0 (Some [42])].
Definition coil_on : list reply := [Reply 1 0 (Some [255])].

(** Socket 4 with one chunk of 3 bytes pending, then nothing. *)
Definition one_chunk : list reply := [ok 4; ok 3; fails EAGAIN].

(** [modbus_set_slave] refuses the id. *)
Definition EINVAL : Z := 22.
Definition bad_slave : list reply := [fails EINVAL].

(** The allocator hands out handle 2. *)
Definition second_handle : list reply := [ok 2].

(** A quiet session: set the timeout, read a register, disconnect; the
    environment answers each call in turn. *)
Definition routine : list member_call :=
  [call_set_response_timeout 1 0; call_request read7; call_disconnect].
Definition routine_replies : list reply :=
  [ok 0; Reply 1 0 (Some [42]); ok 0].

(** Member calls tried on an object whose allocation failed. *)
Definition probes : list member_call :=
  [call_connect; call_request read7; call_disconnect;
   call_set_response_timeout 1 0; call_set_slave_id 1].

End Stub.

(** * Properties *)

Section Proofs.
Context {W : Type} `{L : Libmodbus W}.

(** ** The drain routine *)

Lemma drain_loop_log fuel fd (m m' : machine W) u :
  drain_loop fuel fd m = Some (u, m') ->
  exists k, calls m' = calls m ++ repeat (call_recv fd 256 MSG_DONTWAIT) k.
Proof.
  revert m. induction fuel as [|fuel IH]; intros m Hrun; [discriminate|].
  cbn [drain_loop] in Hrun. unfold bind, extern, get_errno, ret in Hrun.
  destruct (recv fd 256 MSG_DONTWAIT (world m)) as [n w] eqn:Hrecv.
  destruct (n >? 0).
  - apply IH in Hrun as [k Hk]. cbn [calls] in Hk.
    exists (S k). rewrite Hk, <- app_assoc. reflexivity.
  - exists 1%nat.
    destruct (n =? 0); [|destruct (_ || _)];
      injection Hrun as _ <-; reflexivity.
Qed.

Lemma drain_log fuel ctx (m m' : machine W) u :
  drain_socket_nonblocking fuel ctx m = Some (u, m') ->
  exists k,
    calls m' =
    calls m ++ call_modbus_get_socket ctx
            :: repeat (call_recv (fst (modbus_get_socket ctx (world m)))
                                 256 MSG_DONTWAIT) k.
Proof.
  unfold drain_socket_nonblocking, bind, extern, ret.
  destruct (modbus_get_socket ctx (world m)) as [fd w]. cbn [fst].
  destruct (fd <? 0); intros Hrun.
  - injection Hrun as _ <-. exists 0%nat. reflexivity.
  - apply drain_loop_log in Hrun as [k Hk]. cbn [calls] in Hk.
    exists k. rewrite Hk, <- app_assoc. reflexivity.
Qed.

Lemma drain_loop_fuel_mono fuel fuel' fd (m : machine W) r :
  drain_loop fuel fd m = Some r ->
  (fuel <= fuel')%nat ->
  drain_loop fuel' fd m = Some r.
Proof.
  revert fuel' m. induction fuel as [|fuel IH]; intros fuel' m Hrun Hle;
    [discriminate|].
  destruct fuel' as [|fuel']; [lia|].
  cbn [drain_loop] in *. unfold bind, extern in *.
  destruct (recv fd 256 MSG_DONTWAIT (world m)) as [n w].
  destruct (n >? 0); [|exact Hrun].
  apply IH; [exact Hrun|lia].
Qed.

Lemma drain_fuel_mono fuel fuel' ctx (m : machine W) r :
  drain_socket_nonblocking fuel ctx m = Some r ->
  (fuel <= fuel')%nat ->
  drain_socket_nonblocking fuel' ctx m = Some r.
Proof.
  unfold drain_socket_nonblocking, bind, extern.
  destruct (modbus_get_socket ctx (world m)) as [fd w].
  destruct (fd <? 0); [tauto|]. apply drain_loop_fuel_mono.
Qed.

(** With more reads allowed than the socket has data for, the loop
    returns. *)
Lemma drain_loop_enough_fuel k fd (m : machine W) :
  quiet_within k fd (world m) ->
  exists m', drain_loop (S k) fd m = Some (tt, m').
Proof.
  revert m. induction k as [|k IH]; intros m Hq;
    cbn [quiet_within] in Hq; cbn [drain_loop];
    unfold bind, extern, get_errno, ret;
    destruct (recv fd 256 MSG_DONTWAIT (world m)) as [n w] eqn:Hrecv.
  - destruct Hq as [Hn|[]].
    replace (n >? 0) with false by lia.
    destruct (n =? 0); [|destruct (_ || _)]; eauto.
  - destruct (n >? 0) eqn:Hpos.
    + destruct Hq as [Hn|Hq]; [lia|].
      apply (IH (Machine w (calls m ++ [call_recv fd 256 MSG_DONTWAIT]))).
      exact Hq.
    + destruct (n =? 0); [|destruct (_ || _)]; eauto.
Qed.

Lemma drain_enough_fuel k ctx (m : machine W) :
  (let (fd, w) := modbus_get_socket ctx (world m) in
   fd < 0 \/ quiet_within k fd w) ->
  forall fuel, (k < fuel)%nat ->
  exists m', drain_socket_nonblocking fuel ctx m = Some (tt, m').
Proof.
  intros Hq fuel Hfuel.
  unfold drain_socket_nonblocking, bind, extern, ret.
  destruct (modbus_get_socket ctx (world m)) as [fd w].
  destruct (fd <? 0) eqn:Hfd; [eauto|].
  destruct Hq as [Hneg|Hq]; [lia|].
  destruct (drain_loop_enough_fuel k fd
              (Machine w (calls m ++ [call_modbus_get_socket ctx])) Hq)
    as [m' Hm'].
  exists m'. eapply drain_loop_fuel_mono; [exact Hm'|lia].
Qed.

(** ** The retry helper, for any closure *)

Section Executor.
Context {B : Type}.
Variables (fuel : nat) (ctx : modbus_ptr) (last_error prefix : string).
Variable operation : B -> M W (Z * B).

(** One iteration of the loop, spelled out on a machine. *)
Lemma retry_loop_step n attempt b (m : machine W) :
  retry_loop (S n) attempt fuel ctx last_error prefix operation b m =
  match operation b m with
  | None => None
  | Some ((rc, b1), m1) =>
      if negb (rc =? -1) then Some ((Some true, last_error, b1), m1)
      else if (attempt =? 0)
              && is_retryable_modbus_data_error (errno (world m1)) then
        match drain_socket_nonblocking fuel ctx m1 with
        | None => None
        | Some (_, m2) =>
            retry_loop n (attempt + 1) fuel ctx last_error prefix
                       operation b1 m2
        end
      else
        Some ((Some false,
               prefix +:+ modbus_strerror (errno (world m1)), b1), m1)
  end.
Proof.
  cbn [retry_loop]. unfold bind at 1.
  destruct (operation b m) as [[[rc b1] m1]|]; [|reflexivity].
  destruct (negb (rc =? -1)); [reflexivity|].
  unfold bind, get_errno, ret.
  destruct (_ && _); [|reflexivity].
  destruct (drain_socket_nonblocking fuel ctx m1) as [[[] m2]|]; reflexivity.
Qed.

Lemma execute_unfold b (m : machine W) :
  execute_with_data_error_retry fuel ctx last_error prefix operation b m =
  match retry_loop 2 0 fuel ctx last_error prefix operation b m with
  | None => None
  | Some ((Some result, last_error1, b1), m1) =>
      Some ((result, last_error1, b1), m1)
  | Some ((None, _, b1), m1) =>
      Some ((false, prefix +:+ "retry exhausted", b1), m1)
  end.
Proof.
  unfold execute_with_data_error_retry, bind, ret.
  change (Z.to_nat max_attempts) with 2%nat.
  destruct (retry_loop 2 0 fuel ctx last_error prefix operation b m)
    as [[[[[result|] le] b1] m1]|]; reflexivity.
Qed.

Lemma execute_first_success b (m0 m1 : machine W) rc b1 :
  operation b m0 = Some ((rc, b1), m1) ->
  rc <> -1 ->
  execute_with_data_error_retry fuel ctx last_error prefix operation b m0
  = Some ((true, last_error, b1), m1).
Proof.
  intros Hop Hrc. rewrite execute_unfold, retry_loop_step, Hop.
  replace (rc =? -1) with false by lia. reflexivity.
Qed.

Lemma execute_terminal_failure b (m0 m1 : machine W) b1 :
  operation b m0 = Some ((-1, b1), m1) ->
  is_retryable_modbus_data_error (errno (world m1)) = false ->
  execute_with_data_error_retry fuel ctx last_error prefix operation b m0
  = Some ((false, prefix +:+ modbus_strerror (errno (world m1)), b1), m1).
Proof.
  intros Hop Hcode. rewrite execute_unfold, retry_loop_step, Hop, Hcode.
  reflexivity.
Qed.

Lemma execute_retry_success b (m0 m1 m2 m3 : machine W) rc b1 b2 :
  operation b m0 = Some ((-1, b1), m1) ->
  is_retryable_modbus_data_error (errno (world m1)) = true ->
  drain_socket_nonblocking fuel ctx m1 = Some (tt, m2) ->
  operation b1 m2 = Some ((rc, b2), m3) ->
  rc <> -1 ->
  execute_with_data_error_retry fuel ctx last_error prefix operation b m0
  = Some ((true, last_error, b2), m3).
Proof.
  intros Hop1 Hcode Hdrain Hop2 Hrc.
  rewrite execute_unfold, retry_loop_step, Hop1, Hcode, Hdrain.
  cbn [negb Z.eqb andb]. rewrite retry_loop_step, Hop2.
  replace (rc =? -1) with false by lia. reflexivity.
Qed.

Lemma execute_retry_failure b (m0 m1 m2 m3 : machine W) b1 b2 :
  operation b m0 = Some ((-1, b1), m1) ->
  is_retryable_modbus_data_error (errno (world m1)) = true ->
  drain_socket_nonblocking fuel ctx m1 = Some (tt, m2) ->
  operation b1 m2 = Some ((-1, b2), m3) ->
  execute_with_data_error_retry fuel ctx last_error prefix operation b m0
  = Some ((false, prefix +:+ modbus_strerror (errno (world m3)), b2), m3).
Proof.
  intros Hop1 Hcode Hdrain Hop2.
  rewrite execute_unfold, retry_loop_step, Hop1, Hcode, Hdrain.
  cbn [negb Z.eqb andb]. rewrite retry_loop_step, Hop2. reflexivity.
Qed.

(** The loop of two iterations always leaves through a [return]. *)
Lemma retry_loop_returns b (m : machine W) r le b' m' :
  retry_loop 2 0 fuel ctx last_error prefix operation b m
  = Some ((r, le, b'), m') ->
  r = Some true /\ le = last_error \/
  r = Some false /\ le = prefix +:+ modbus_strerror (errno (world m')).
Proof.
  rewrite retry_loop_step.
  destruct (operation b m) as [[[rc b1] m1]|]; [|discriminate].
  destruct (negb (rc =? -1)).
  { intros [= <- <- _ _]. left. split; reflexivity. }
  cbn [Z.eqb andb].
  destruct (is_retryable_modbus_data_error (errno (world m1))).
  2:{ intros [= <- <- _ <-]. right. split; reflexivity. }
  destruct (drain_socket_nonblocking fuel ctx m1) as [[[] m2]|];
    [|discriminate].
  rewrite retry_loop_step.
  destruct (operation b1 m2) as [[[rc2 b2] m3]|]; [|discriminate].
  destruct (negb (rc2 =? -1)).
  { intros [= <- <- _ _]. left. split; reflexivity. }
  cbn [Z.add Z.eqb andb Pos.add].
  intros [= <- <- _ <-]. right. split; reflexivity.
Qed.

Lemma execute_returns b (m : machine W) result le b' m' :
  execute_with_data_error_retry fuel ctx last_error prefix operation b m
  = Some ((result, le, b'), m') ->
  result = true /\ le = last_error \/
  result = false /\
  le = prefix +:+ modbus_strerror (errno (world m')).
Proof.
  rewrite execute_unfold.
  destruct (retry_loop 2 0 fuel ctx last_error prefix operation b m)
    as [[[[returned le1] b1] m1]|] eqn:Hloop; [|discriminate].
  apply retry_loop_returns in Hloop as [[-> ->]|[-> ->]];
    intros [= <- <- _ <-]; [left|right]; split; reflexivity.
Qed.

End Executor.

(** ** The wrappers through the uniform view *)

Lemma attempt_total q ctx dest (m : machine W) :
  exists rc dest' w',
    attempt q ctx dest m
    = Some ((rc, dest'), Machine w' (calls m ++ [primitive_call q ctx])).
Proof.
  destruct q; cbn [attempt primitive_call]; unfold bind, extern, ret.
  all: match goal with
       | |- context [let (_, _) := ?f (world ?m0) in _] =>
           destruct (f (world m0)) as [r w']
       end.
  all: try destruct r as [rc dest']; eauto.
Qed.

Lemma attempt_log q ctx dest (m m' : machine W) r :
  attempt q ctx dest m = Some (r, m') ->
  calls m' = calls m ++ [primitive_call q ctx].
Proof.
  destruct (attempt_total q ctx dest m) as (rc & dest' & w' & ->).
  intros [= _ <-]. reflexivity.
Qed.

(** A wrapper on a connected session is the retry helper on its closure. *)
Lemma invoke_connected fuel q this (m : machine W) :
  connected_ this = true ->
  invoke fuel q this m =
  match execute_with_data_error_retry fuel (ctx_ this) (last_error_ this)
          (error_prefix q) (attempt q (ctx_ this)) (destination q) m with
  | None => None
  | Some ((result, last_error, dest), m') =>
      Some ((result, set_last_error this last_error,
             out_after q result dest), m')
  end.
Proof.
  intros Hconn.
  destruct q; cbn [invoke]; unfold bind at 1;
    unfold read_register, read_registers, write_register, write_registers,
      read_coil, read_coils, write_coil, write_coils;
    rewrite Hconn; cbn [negb];
    unfold error_prefix, attempt, destination, out_after; unfold bind at 1;
    match goal with
    | |- context [execute_with_data_error_retry ?f ?c ?l ?p ?o ?b ?m0] =>
        destruct (execute_with_data_error_retry f c l p o b m0)
          as [[[[result le] dest] m']|]
    end; try reflexivity.
  destruct result; reflexivity.
Qed.

Lemma invoke_disconnected fuel q this (m : machine W) :
  connected_ this = false ->
  invoke fuel q this m
  = Some ((false, set_last_error this "Not connected", out_before q), m).
Proof.
  intros Hconn.
  destruct q; cbn [invoke]; unfold bind;
    unfold read_register, read_registers, write_register, write_registers,
      read_coil, read_coils, write_coil, write_coils;
    rewrite Hconn; reflexivity.
Qed.

Lemma set_last_error_same this : set_last_error this (last_error_ this) = this.
Proof. destruct this; reflexivity. Qed.

Lemma drain_invocations_app l1 l2 :
  drain_invocations (l1 ++ l2)
  = (drain_invocations l1 + drain_invocations l2)%nat.
Proof.
  unfold drain_invocations. rewrite List.filter_app, length_app. reflexivity.
Qed.

Lemma drain_invocations_recv fd len flags k :
  drain_invocations (repeat (call_recv fd len flags) k) = 0%nat.
Proof. induction k as [|k IH]; [reflexivity|exact IH]. Qed.

Lemma drain_invocations_primitive q ctx :
  drain_invocations [primitive_call q ctx] = 0%nat.
Proof. destruct q; reflexivity. Qed.

(** The log of a call that drained once between two attempts. *)
Lemma drain_invocations_retry q ctx fd len flags k :
  drain_invocations
    ([primitive_call q ctx]
       ++ call_modbus_get_socket ctx :: repeat (call_recv fd len flags) k
       ++ [primitive_call q ctx]) = 1%nat.
Proof.
  rewrite drain_invocations_app, drain_invocations_primitive.
  change (call_modbus_get_socket ctx :: ?l)
    with ([call_modbus_get_socket ctx] ++ l).
  rewrite !drain_invocations_app, drain_invocations_recv,
    drain_invocations_primitive.
  reflexivity.
Qed.

(** The codes the helper retries on are the five data-layer ones. *)
Lemma is_retryable_spec error_code :
  is_retryable_modbus_data_error error_code = true <->
  In error_code [EMBBADDATA; EMBMDATA; EMBBADCRC; EMBBADEXC; EMBUNKEXC].
Proof.
  unfold is_retryable_modbus_data_error. cbn [In].
  rewrite !orb_true_iff, !Z.eqb_eq. intuition congruence.
Qed.

Lemma is_retryable_false error_code :
  ~ In error_code [EMBBADDATA; EMBMDATA; EMBBADCRC; EMBBADEXC; EMBUNKEXC] ->
  is_retryable_modbus_data_error error_code = false.
Proof.
  intros Hout. apply not_true_is_false. rewrite is_retryable_spec. exact Hout.
Qed.

(** The log of a wrapper that failed once, drained and tried again. *)
Lemma retry_log fuel q ctx dest dest1 (m0 m1 m2 m3 : machine W) r1 r2 :
  attempt q ctx dest m0 = Some (r1, m1) ->
  drain_socket_nonblocking fuel ctx m1 = Some (tt, m2) ->
  attempt q ctx dest1 m2 = Some (r2, m3) ->
  exists fd k,
    calls m3 =
    calls m0 ++ [primitive_call q ctx]
      ++ call_modbus_get_socket ctx
         :: repeat (call_recv fd 256 MSG_DONTWAIT) k
      ++ [primitive_call q ctx].
Proof.
  intros H1 Hd H2.
  apply attempt_log in H1. apply attempt_log in H2.
  apply drain_log in Hd as [k Hk].
  exists (fst (modbus_get_socket ctx (world m1))), k.
  rewrite H2, Hk, H1, <- !app_assoc. reflexivity.
Qed.

(** ** The retry policy of the wrappers *)

(** C1. On a connected session, when the primitive of a read or write
    wrapper fails with a data-layer transient code on the first attempt
    and succeeds on the second, the wrapper returns success, leaves the
    fields alone, and its external calls are: the primitive, one run of
    the drain routine (one [modbus_get_socket], then [recv]s), the
    primitive again.  The drain routine is taken to return within [fuel]
    reads; any larger bound gives the same run. *)
Theorem transient_error_then_success
    fuel q this (m0 m1 m2 m3 : machine W) dest1 rc dest2 :
  connected_ this = true ->
  attempt q (ctx_ this) (destination q) m0 = Some ((-1, dest1), m1) ->
  In (errno (world m1))
     [EMBBADDATA; EMBMDATA; EMBBADCRC; EMBBADEXC; EMBUNKEXC] ->
  drain_socket_nonblocking fuel (ctx_ this) m1 = Some (tt, m2) ->
  attempt q (ctx_ this) dest1 m2 = Some ((rc, dest2), m3) ->
  rc <> -1 ->
  (forall fuel', (fuel <= fuel')%nat ->
     invoke fuel' q this m0
     = Some ((true, this, out_after q true dest2), m3)) /\
  exists fd k new,
    calls m3 = calls m0 ++ new /\
    new = [primitive_call q (ctx_ this)]
            ++ call_modbus_get_socket (ctx_ this)
               :: repeat (call_recv fd 256 MSG_DONTWAIT) k
            ++ [primitive_call q (ctx_ this)] /\
    drain_invocations new = 1%nat.
Proof.
  intros Hconn H1 Hcode Hdrain H2 Hrc. split.
  - intros fuel' Hfuel. rewrite invoke_connected by exact Hconn.
    rewrite (execute_retry_success _ _ _ _ _ _ _ _ _ _ _ _ _ H1
               (proj2 (is_retryable_spec _) Hcode)
               (drain_fuel_mono _ _ _ _ _ Hdrain Hfuel) H2 Hrc).
    rewrite set_last_error_same. reflexivity.
  - destruct (retry_log _ _ _ _ _ _ _ _ _ _ _ H1 Hdrain H2) as (fd & k & Hlog).
    exists fd, k. eexists. split; [exact Hlog|]. split; [reflexivity|].
    apply drain_invocations_retry.
Qed.

(** C2. On a connected session, when the primitive fails with a
    data-layer transient code on the first attempt and fails again on the
    second, the wrapper returns failure, the drain routine ran once,
    after the first failure only, and [last_error_] is the wrapper's
    prefix followed by the description of the code of the second
    failure.  The drain routine is taken to return within [fuel] reads;
    any larger bound gives the same run. *)
Theorem transient_error_twice
    fuel q this (m0 m1 m2 m3 : machine W) dest1 dest2 :
  connected_ this = true ->
  attempt q (ctx_ this) (destination q) m0 = Some ((-1, dest1), m1) ->
  In (errno (world m1))
     [EMBBADDATA; EMBMDATA; EMBBADCRC; EMBBADEXC; EMBUNKEXC] ->
  drain_socket_nonblocking fuel (ctx_ this) m1 = Some (tt, m2) ->
  attempt q (ctx_ this) dest1 m2 = Some ((-1, dest2), m3) ->
  (forall fuel', (fuel <= fuel')%nat ->
     invoke fuel' q this m0
     = Some ((false,
              set_last_error this
                (error_prefix q +:+ modbus_strerror (errno (world m3))),
              out_after q false dest2), m3)) /\
  exists fd k new,
    calls m3 = calls m0 ++ new /\
    new = [primitive_call q (ctx_ this)]
            ++ call_modbus_get_socket (ctx_ this)
               :: repeat (call_recv fd 256 MSG_DONTWAIT) k
            ++ [primitive_call q (ctx_ this)] /\
    drain_invocations new = 1%nat.
Proof.
  intros Hconn H1 Hcode Hdrain H2. split.
  - intros fuel' Hfuel. rewrite invoke_connected by exact Hconn.
    rewrite (execute_retry_failure _ _ _ _ _ _ _ _ _ _ _ _ H1
               (proj2 (is_retryable_spec _) Hcode)
               (drain_fuel_mono _ _ _ _ _ Hdrain Hfuel) H2).
    reflexivity.
  - destruct (retry_log _ _ _ _ _ _ _ _ _ _ _ H1 Hdrain H2) as (fd & k & Hlog).
    exists fd, k. eexists. split; [exact Hlog|]. split; [reflexivity|].
    apply drain_invocations_retry.
Qed.

(** C3. On a connected session, when the primitive fails on the first
    attempt with a code outside the data-layer transient set, the wrapper
    returns failure at once: the primitive is its only external call (no
    drain, no second attempt), and [last_error_] is the wrapper's prefix
    followed by the description of that code. *)
Theorem other_error_is_terminal
    fuel q this (m0 m1 : machine W) dest1 :
  connected_ this = true ->
  attempt q (ctx_ this) (destination q) m0 = Some ((-1, dest1), m1) ->
  ~ In (errno (world m1))
       [EMBBADDATA; EMBMDATA; EMBBADCRC; EMBBADEXC; EMBUNKEXC] ->
  invoke fuel q this m0
  = Some ((false,
           Session (ctx_ this) true
             (error_prefix q +:+ modbus_strerror (errno (world m1))),
           out_after q false dest1), m1) /\
  calls m1 = calls m0 ++ [primitive_call q (ctx_ this)] /\
  drain_invocations [primitive_call q (ctx_ this)] = 0%nat.
Proof.
  intros Hconn H1 Hcode. split; [|split].
  - rewrite invoke_connected by exact Hconn.
    rewrite (execute_terminal_failure _ _ _ _ _ _ _ _ _ H1
               (is_retryable_false _ Hcode)).
    unfold set_last_error. rewrite Hconn. reflexivity.
  - exact (attempt_log _ _ _ _ _ _ H1).
  - apply drain_invocations_primitive.
Qed.

(** C4. On a session whose [connected_] flag is false, every read or
    write wrapper returns failure with [last_error_] set to "Not
    connected"; the machine is the one it started on, so no primitive
    was called and nothing was drained, and the caller's output memory
    is as before. *)
Theorem not_connected_fails_fast fuel q this (m : machine W) :
  connected_ this = false ->
  invoke fuel q this m
  = Some ((false, Session (ctx_ this) false "Not connected", out_before q), m).
Proof.
  intros Hconn. rewrite invoke_disconnected by exact Hconn.
  unfold set_last_error. rewrite Hconn. reflexivity.
Qed.

(** ** Connecting *)

(** One iteration of the loop of [connect], spelled out on a machine. *)
Lemma connect_loop_step n attempt this (m : machine W) :
  connect_loop (S n) attempt this m =
  let (rc, w1) := modbus_connect (ctx_ this) (world m) in
  let m1 := Machine w1 (calls m ++ [call_modbus_connect (ctx_ this)]) in
  if rc =? 0 then Some ((Some true, set_connected this true), m1)
  else if ((errno w1 =? EWOULDBLOCK) || (errno w1 =? EAGAIN))
          && (attempt <? max_retries - 1) then
    connect_loop n (attempt + 1) this
      (Machine (usleep 100000 w1) (calls m1 ++ [call_usleep 100000]))
  else
    Some ((Some false,
           set_last_error this
             ("Connection failed: " +:+ modbus_strerror (errno w1))), m1).
Proof.
  cbn [connect_loop]. unfold bind, extern, extern_, get_errno, ret.
  destruct (modbus_connect (ctx_ this) (world m)) as [rc w1].
  destruct (rc =? 0); [reflexivity|]. cbn [world calls].
  destruct (_ || _); [|reflexivity].
  destruct (attempt <? max_retries - 1); reflexivity.
Qed.

Lemma connect_unfold this (m : machine W) :
  ctx_ this <> None ->
  connected_ this = false ->
  connect this m =
  match connect_loop 3 0 this m with
  | Some ((Some result, this'), m') => Some ((result, this'), m')
  | Some ((None, this'), m') => Some ((false, this'), m')
  | None => None
  end.
Proof.
  intros Hctx Hconn. unfold connect. rewrite Hconn.
  destruct (ctx_ this) as [c|] eqn:Hc; [|contradiction]. cbn [is_null].
  change (Z.to_nat max_retries) with 3%nat. unfold bind, ret.
  destruct (connect_loop 3 0 this m) as [[[[result|] this'] m']|];
    reflexivity.
Qed.

Lemma would_block_dec e :
  (e = EWOULDBLOCK \/ e = EAGAIN) \/ ~ (e = EWOULDBLOCK \/ e = EAGAIN).
Proof.
  destruct (Z.eq_dec e EWOULDBLOCK); [tauto|].
  destruct (Z.eq_dec e EAGAIN); tauto.
Qed.

Lemma would_block_true e :
  e = EWOULDBLOCK \/ e = EAGAIN ->
  (e =? EWOULDBLOCK) || (e =? EAGAIN) = true.
Proof. rewrite orb_true_iff, !Z.eqb_eq. tauto. Qed.

Lemma would_block_false e :
  ~ (e = EWOULDBLOCK \/ e = EAGAIN) ->
  (e =? EWOULDBLOCK) || (e =? EAGAIN) = false.
Proof.
  intros Hno. apply not_true_is_false.
  rewrite orb_true_iff, !Z.eqb_eq. exact Hno.
Qed.

(** The cases of [connect], through the field setters. *)
Lemma connect_cases this (m0 : machine W) :
  ctx_ this <> None ->
  connected_ this = false ->
  let ctx := ctx_ this in
  let would_block e := e = EWOULDBLOCK \/ e = EAGAIN in
  let opened := set_connected this true in
  let failed e :=
    set_last_error this ("Connection failed: " +:+ modbus_strerror e) in
  let open := call_modbus_connect ctx in
  let sleep := call_usleep 100000 in
  let '(rc1, w1) := modbus_connect ctx (world m0) in
  let '(rc2, w2) := modbus_connect ctx (usleep 100000 w1) in
  let '(rc3, w3) := modbus_connect ctx (usleep 100000 w2) in
  (rc1 = 0 ->
   connect this m0
   = Some ((true, opened), Machine w1 (calls m0 ++ [open]))) /\
  (rc1 <> 0 -> ~ would_block (errno w1) ->
   connect this m0
   = Some ((false, failed (errno w1)), Machine w1 (calls m0 ++ [open]))) /\
  (rc1 <> 0 -> would_block (errno w1) -> rc2 = 0 ->
   connect this m0
   = Some ((true, opened), Machine w2 (calls m0 ++ [open; sleep; open]))) /\
  (rc1 <> 0 -> would_block (errno w1) ->
   rc2 <> 0 -> ~ would_block (errno w2) ->
   connect this m0
   = Some ((false, failed (errno w2)),
           Machine w2 (calls m0 ++ [open; sleep; open]))) /\
  (rc1 <> 0 -> would_block (errno w1) ->
   rc2 <> 0 -> would_block (errno w2) -> rc3 = 0 ->
   connect this m0
   = Some ((true, opened),
           Machine w3 (calls m0 ++ [open; sleep; open; sleep; open]))) /\
  (rc1 <> 0 -> would_block (errno w1) ->
   rc2 <> 0 -> would_block (errno w2) -> rc3 <> 0 ->
   connect this m0
   = Some ((false, failed (errno w3)),
           Machine w3 (calls m0 ++ [open; sleep; open; sleep; open]))) /\
  (exists result this' m' new,
      connect this m0 = Some ((result, this'), m') /\
      calls m' = calls m0 ++ new /\
      (open_attempts new <= 3)%nat /\
      sleeps new = repeat 100000 (open_attempts new - 1)).
Proof.
  intros Hctx Hconn ctx would_block opened failed open sleep.
  destruct (modbus_connect ctx (world m0)) as [rc1 w1] eqn:H1.
  destruct (modbus_connect ctx (usleep 100000 w1)) as [rc2 w2] eqn:H2.
  destruct (modbus_connect ctx (usleep 100000 w2)) as [rc3 w3] eqn:H3.
  rewrite (connect_unfold _ _ Hctx Hconn).
  rewrite connect_loop_step. fold ctx. rewrite H1. cbn [world calls].
  assert (Hlt0 : (0 <? max_retries - 1) = true) by reflexivity.
  assert (Hlt1 : (0 + 1 <? max_retries - 1) = true) by reflexivity.
  assert (Hlt2 : (0 + 1 + 1 <? max_retries - 1) = false) by reflexivity.
  rewrite Hlt0.
  destruct (Z.eqb_spec rc1 0) as [E1|E1].
  { repeat split; try (intros; congruence).
    exists true, opened, (Machine w1 (calls m0 ++ [open])), [open].
    repeat split; cbn; lia. }
  destruct (would_block_dec (errno w1)) as [B1|B1].
  2:{ rewrite (would_block_false _ B1). cbn [andb].
      repeat split; try (intros; first [congruence|contradiction]).
      exists false, (failed (errno w1)), (Machine w1 (calls m0 ++ [open])),
        [open].
      repeat split; cbn; lia. }
  rewrite (would_block_true _ B1). cbn [andb].
  rewrite connect_loop_step. fold ctx. cbn [world calls]. rewrite H2, Hlt1.
  rewrite <- !app_assoc. cbn [app].
  destruct (Z.eqb_spec rc2 0) as [E2|E2].
  { repeat split; try (intros; first [congruence|contradiction]).
    exists true, opened, (Machine w2 (calls m0 ++ [open; sleep; open])),
      [open; sleep; open].
    repeat split; cbn; lia. }
  destruct (would_block_dec (errno w2)) as [B2|B2].
  2:{ rewrite (would_block_false _ B2). cbn [andb].
      repeat split; try (intros; first [congruence|contradiction]).
      exists false, (failed (errno w2)),
        (Machine w2 (calls m0 ++ [open; sleep; open])), [open; sleep; open].
      repeat split; cbn; lia. }
  rewrite (would_block_true _ B2). cbn [andb].
  rewrite connect_loop_step. fold ctx. cbn [world calls]. rewrite H3, Hlt2.
  rewrite <- !app_assoc. cbn [app]. rewrite andb_false_r.
  destruct (Z.eqb_spec rc3 0) as [E3|E3].
  { repeat split; try (intros; first [congruence|contradiction]).
    exists true, opened,
      (Machine w3 (calls m0 ++ [open; sleep; open; sleep; open])),
      [open; sleep; open; sleep; open].
    repeat split; cbn; lia. }
  repeat split; try (intros; first [congruence|contradiction]).
  exists false, (failed (errno w3)),
    (Machine w3 (calls m0 ++ [open; sleep; open; sleep; open])),
    [open; sleep; open; sleep; open].
  repeat split; cbn; lia.
Qed.

(** C5. [connect] on a disconnected session with a valid handle, case by
    case on what the first, second and third [modbus_connect] answer.
    An answer of 0 connects.  Any other answer with a code that is not
    would-block fails at once.  A would-block answer on the first or
    second attempt is followed by a sleep of 100000 microseconds and the
    next attempt; on the third attempt it fails like any other code.
    Every failure sets [last_error_] to "Connection failed: " followed
    by the description of the code; no run opens more than three times,
    and it sleeps 100000 microseconds once between two opens and at no
    other time. *)
Theorem connect_retries_on_would_block this (m0 : machine W) :
  ctx_ this <> None ->
  connected_ this = false ->
  let ctx := ctx_ this in
  let would_block e := e = EWOULDBLOCK \/ e = EAGAIN in
  let opened := Session (ctx_ this) true (last_error_ this) in
  let failed e :=
    Session (ctx_ this) false
            ("Connection failed: " +:+ modbus_strerror e) in
  let open := call_modbus_connect ctx in
  let sleep := call_usleep 100000 in
  let '(rc1, w1) := modbus_connect ctx (world m0) in
  let '(rc2, w2) := modbus_connect ctx (usleep 100000 w1) in
  let '(rc3, w3) := modbus_connect ctx (usleep 100000 w2) in
  (rc1 = 0 ->
   connect this m0
   = Some ((true, opened), Machine w1 (calls m0 ++ [open]))) /\
  (rc1 <> 0 -> ~ would_block (errno w1) ->
   connect this m0
   = Some ((false, failed (errno w1)), Machine w1 (calls m0 ++ [open]))) /\
  (rc1 <> 0 -> would_block (errno w1) -> rc2 = 0 ->
   connect this m0
   = Some ((true, opened), Machine w2 (calls m0 ++ [open; sleep; open]))) /\
  (rc1 <> 0 -> would_block (errno w1) ->
   rc2 <> 0 -> ~ would_block (errno w2) ->
   connect this m0
   = Some ((false, failed (errno w2)),
           Machine w2 (calls m0 ++ [open; sleep; open]))) /\
  (rc1 <> 0 -> would_block (errno w1) ->
   rc2 <> 0 -> would_block (errno w2) -> rc3 = 0 ->
   connect this m0
   = Some ((true, opened),
           Machine w3 (calls m0 ++ [open; sleep; open; sleep; open]))) /\
  (rc1 <> 0 -> would_block (errno w1) ->
   rc2 <> 0 -> would_block (errno w2) -> rc3 <> 0 ->
   connect this m0
   = Some ((false, failed (errno w3)),
           Machine w3 (calls m0 ++ [open; sleep; open; sleep; open]))) /\
  (exists result this' m' new,
      connect this m0 = Some ((result, this'), m') /\
      calls m' = calls m0 ++ new /\
      (open_attempts new <= 3)%nat /\
      sleeps new = repeat 100000 (open_attempts new - 1)).
Proof.
  intros Hctx Hconn. pose proof (connect_cases this m0 Hctx Hconn) as Hcases.
  cbv zeta in Hcases |- *. unfold set_last_error, set_connected in Hcases.
  rewrite Hconn in Hcases. exact Hcases.
Qed.

(** C8. The code after the loop of [execute_with_data_error_retry], which
    reports "retry exhausted", is never reached: whatever the closure
    and the environment do, the loop of two iterations leaves through a
    [return], and the helper returns either success with [last_error]
    as it was, or failure with the prefix followed by the description of
    the code of the last attempt. *)
Theorem retry_exhausted_unreachable
    {B : Type} fuel ctx last_error prefix
    (operation : B -> M W (Z * B)) b (m : machine W) :
  (forall returned le b' m',
      retry_loop (Z.to_nat max_attempts) 0 fuel ctx last_error prefix
                 operation b m = Some ((returned, le, b'), m') ->
      returned <> None) /\
  (forall result le b' m',
      execute_with_data_error_retry fuel ctx last_error prefix operation b m
      = Some ((result, le, b'), m') ->
      result = true /\ le = last_error \/
      result = false /\
      le = prefix +:+ modbus_strerror (errno (world m'))).
Proof.
  split.
  - intros returned le b' m' Hloop.
    change (Z.to_nat max_attempts) with 2%nat in Hloop.
    apply retry_loop_returns in Hloop as [[-> _]|[-> _]]; discriminate.
  - intros result le b' m'. apply execute_returns.
Qed.

(** ** What the member functions do to the fields *)

Lemma invoke_fields fuel q this (m : machine W) result this' out m' :
  invoke fuel q this m = Some ((result, this', out), m') ->
  ctx_ this' = ctx_ this /\ connected_ this' = connected_ this /\
  (result = true -> last_error_ this' = last_error_ this).
Proof.
  destruct (connected_ this) eqn:Hconn.
  - rewrite invoke_connected by exact Hconn.
    destruct (execute_with_data_error_retry _ _ _ _ _ _ _)
      as [[[[r le] dest] m1]|] eqn:Hexec; [|discriminate].
    intros [= <- <- _ _]. cbn. repeat split; [congruence|].
    intros ->. apply execute_returns in Hexec as [[_ ->]|[? _]];
      [reflexivity|discriminate].
  - rewrite invoke_disconnected by exact Hconn.
    intros [= <- <- _ _]. cbn. repeat split; [congruence|discriminate].
Qed.

Lemma connect_loop_fields n attempt this (m : machine W) returned this' m' :
  connect_loop n attempt this m = Some ((returned, this'), m') ->
  ctx_ this' = ctx_ this /\
  (returned = Some true ->
   connected_ this' = true /\ last_error_ this' = last_error_ this) /\
  (returned <> Some true -> connected_ this' = connected_ this).
Proof.
  revert attempt m. induction n as [|n IH]; intros attempt m.
  - intros [= <- <- _]. repeat split; congruence.
  - rewrite connect_loop_step.
    destruct (modbus_connect (ctx_ this) (world m)) as [rc w1].
    cbv zeta. destruct (rc =? 0).
    { intros [= <- <- _]. cbn. repeat split; congruence. }
    destruct (_ && _); [apply IH|].
    intros [= <- <- _]. cbn. repeat split; congruence.
Qed.

Lemma connect_fields this (m : machine W) result this' m' :
  connect this m = Some ((result, this'), m') ->
  ctx_ this' = ctx_ this /\
  (result = true -> last_error_ this' = last_error_ this) /\
  (ctx_ this = None -> connected_ this' = connected_ this).
Proof.
  unfold connect. destruct (ctx_ this) as [c|] eqn:Hc; cbn [is_null].
  2:{ intros [= <- <- _]. cbn. repeat split; [congruence|discriminate]. }
  destruct (connected_ this) eqn:Hconn.
  { intros [= <- <- _]. repeat split; congruence. }
  unfold bind, ret.
  destruct (connect_loop _ _ _ _) as [[[returned this1] m1]|] eqn:Hloop;
    [|discriminate].
  apply connect_loop_fields in Hloop as (Hctx & Hok & _).
  destruct returned as [r|]; intros [= <- <- _];
    (repeat split; [congruence| |discriminate]).
  - intros ->. apply Hok. reflexivity.
  - discriminate.
Qed.

Lemma disconnect_fields this (m : machine W) this' m' :
  disconnect this m = Some (this', m') ->
  ctx_ this' = ctx_ this /\
  last_error_ this' = last_error_ this /\
  (connected_ this' = false \/ this' = this /\ m' = m).
Proof.
  unfold disconnect, bind, extern_, ret.
  destruct (_ && _); intros [= <- <-]; cbn; auto.
Qed.

Lemma set_slave_id_fields this slave_id (m : machine W) result this' m' :
  set_slave_id this slave_id m = Some ((result, this'), m') ->
  ctx_ this' = ctx_ this /\ connected_ this' = connected_ this /\
  (result = true -> last_error_ this' = last_error_ this).
Proof.
  unfold set_slave_id, bind, extern, get_errno, ret.
  destruct (is_null (ctx_ this)).
  { intros [= <- <- _]. cbn. repeat split; discriminate. }
  destruct (modbus_set_slave _ _ _) as [rc w1].
  destruct (rc =? -1); intros [= <- <- _]; cbn; repeat split; discriminate.
Qed.

Lemma set_response_timeout_total this seconds microseconds (m : machine W) :
  exists m', set_response_timeout this seconds microseconds m = Some (tt, m').
Proof.
  unfold set_response_timeout, extern_, ret.
  destruct (negb _); eauto.
Qed.

(** ** The invariant *)

Lemma session_inv_fields s s' :
  ctx_ s' = ctx_ s ->
  connected_ s' = connected_ s ->
  session_inv s -> session_inv s'.
Proof. unfold session_inv. intros -> ->. auto. Qed.

Lemma session_inv_disconnected s : connected_ s = false -> session_inv s.
Proof. unfold session_inv. congruence. Qed.

Lemma constructor_inv ip_address port (m : machine W) s m' :
  ModbusConnection ip_address port m = Some (s, m') -> session_inv s.
Proof.
  unfold ModbusConnection, bind, extern, ret.
  destruct (modbus_new_tcp _ _ _) as [ctx w1]. cbn [ctx_].
  destruct (is_null ctx); intros [= <- _];
    apply session_inv_disconnected; reflexivity.
Qed.

Lemma connect_inv this (m : machine W) result this' m' :
  session_inv this ->
  connect this m = Some ((result, this'), m') ->
  session_inv this'.
Proof.
  intros Hinv Hrun. apply connect_fields in Hrun as (Hctx & _ & Hnull).
  destruct (ctx_ this) as [c|] eqn:Hc.
  - unfold session_inv. rewrite Hctx. discriminate.
  - apply (session_inv_fields this); [congruence|auto|exact Hinv].
Qed.

Lemma disconnect_inv this (m : machine W) this' m' :
  session_inv this ->
  disconnect this m = Some (this', m') ->
  session_inv this'.
Proof.
  intros Hinv Hrun.
  apply disconnect_fields in Hrun as (_ & _ & [Hoff|[-> _]]);
    [apply session_inv_disconnected|]; assumption.
Qed.

Lemma move_inv other this' other' :
  session_inv other ->
  ModbusConnection_move other = (this', other') ->
  session_inv this' /\ session_inv other'.
Proof.
  unfold ModbusConnection_move. intros Hinv [= <- <-]. split.
  - exact Hinv.
  - apply session_inv_disconnected. reflexivity.
Qed.

Lemma operator_assign_inv this other (m : machine W) this' other' m' :
  session_inv other ->
  operator_assign this other m = Some ((this', other'), m') ->
  session_inv this' /\ session_inv other'.
Proof.
  intros Hinv. unfold operator_assign, bind.
  destruct ((if connected_ this then disconnect this else ret this) m)
    as [[this1 m1]|]; [|discriminate].
  match goal with
  | |- context [match ?c m1 with _ => _ end] =>
      destruct (c m1) as [[[] m2]|]; [|discriminate]
  end.
  intros [= <- <- _]. split.
  - exact Hinv.
  - apply session_inv_disconnected. reflexivity.
Qed.

Lemma destructor_inv this (m : machine W) this' m' :
  session_inv this ->
  ModbusConnection_destructor this m = Some (this', m') ->
  ctx_ this' = None /\ connected_ this' = false.
Proof.
  intros Hinv. unfold ModbusConnection_destructor, bind at 1.
  destruct (connected_ this) eqn:Hconn.
  - specialize (Hinv Hconn).
    unfold disconnect, bind, extern_, ret. rewrite Hconn.
    destruct (ctx_ this) as [c|] eqn:Hc; [|contradiction].
    cbn. rewrite Hc. cbn. intros [= <- _]. split; reflexivity.
  - unfold ret, bind, extern_.
    destruct (ctx_ this) as [c|] eqn:Hc; cbn; intros [= <- _]; cbn; auto.
Qed.

Lemma exec_inv fuel c (objs objs' : gmap nat session) (m m' : machine W) :
  map_Forall (fun _ s => session_inv s) objs ->
  exec fuel c objs m = Some (objs', m') ->
  map_Forall (fun _ s => session_inv s) objs'.
Proof.
  intros Hall. destruct c; cbn [exec].
  - destruct (objs !! this) eqn:Hthis; [intros [= <- _]; exact Hall|].
    unfold bind, ret.
    destruct (ModbusConnection _ _ _) as [[s m1]|] eqn:Hnew; [|discriminate].
    intros [= <- _]. apply map_Forall_insert_2; [|exact Hall].
    eapply constructor_inv, Hnew.
  - destruct (objs !! this) eqn:Hthis; [intros [= <- _]; exact Hall|].
    destruct (objs !! other) as [o|] eqn:Hother;
      [|intros [= <- _]; exact Hall].
    destruct (ModbusConnection_move o) as [s o'] eqn:Hmove.
    intros [= <- _].
    apply move_inv in Hmove as [Hs Ho]; [|exact (Hall _ _ Hother)].
    repeat apply map_Forall_insert_2; assumption.
  - destruct (objs !! this) as [s|] eqn:Hthis;
      [|intros [= <- _]; exact Hall].
    destruct (objs !! other) as [o|] eqn:Hother;
      [|intros [= <- _]; exact Hall].
    destruct (decide (this = other)); [intros [= <- _]; exact Hall|].
    unfold bind, ret.
    destruct (operator_assign s o m) as [[[s' o'] m1]|] eqn:Hassign;
      [|discriminate].
    intros [= <- _].
    apply operator_assign_inv in Hassign as [Hs Ho];
      [|exact (Hall _ _ Hother)].
    repeat apply map_Forall_insert_2; assumption.
  - destruct (objs !! this) as [s|] eqn:Hthis;
      [|intros [= <- _]; exact Hall].
    unfold bind, ret.
    destruct (ModbusConnection_destructor s m) as [[s' m1]|];
      [|discriminate].
    intros [= <- _]. apply map_Forall_delete. exact Hall.
  - destruct (objs !! this) as [s|] eqn:Hthis;
      [|intros [= <- _]; exact Hall].
    unfold bind, ret.
    destruct (connect s m) as [[[r s'] m1]|] eqn:Hrun; [|discriminate].
    intros [= <- _]. apply map_Forall_insert_2; [|exact Hall].
    eapply connect_inv; [exact (Hall _ _ Hthis)|exact Hrun].
  - destruct (objs !! this) as [s|] eqn:Hthis;
      [|intros [= <- _]; exact Hall].
    unfold bind, ret.
    destruct (disconnect s m) as [[s' m1]|] eqn:Hrun; [|discriminate].
    intros [= <- _]. apply map_Forall_insert_2; [|exact Hall].
    eapply disconnect_inv; [exact (Hall _ _ Hthis)|exact Hrun].
  - destruct (objs !! this) as [s|] eqn:Hthis;
      [|intros [= <- _]; exact Hall].
    unfold bind, ret.
    destruct (invoke fuel q s m) as [[[[r s'] out] m1]|] eqn:Hrun;
      [|discriminate].
    intros [= <- _]. apply map_Forall_insert_2; [|exact Hall].
    apply invoke_fields in Hrun as (Hctx & Hconn & _).
    exact (session_inv_fields _ _ Hctx Hconn (Hall _ _ Hthis)).
  - destruct (objs !! this) as [s|] eqn:Hthis;
      [|intros [= <- _]; exact Hall].
    unfold bind, ret.
    destruct (set_slave_id s slave_id m) as [[[r s'] m1]|] eqn:Hrun;
      [|discriminate].
    intros [= <- _]. apply map_Forall_insert_2; [|exact Hall].
    apply set_slave_id_fields in Hrun as (Hctx & Hconn & _).
    exact (session_inv_fields _ _ Hctx Hconn (Hall _ _ Hthis)).
  - destruct (objs !! this) as [s|] eqn:Hthis;
      [|intros [= <- _]; exact Hall].
    unfold bind, ret.
    destruct (set_response_timeout s seconds microseconds m)
      as [[[] m1]|]; [|discriminate].
    intros [= <- _]. exact Hall.
Qed.

Lemma run_inv fuel cs (objs objs' : gmap nat session) (m m' : machine W) :
  map_Forall (fun _ s => session_inv s) objs ->
  run fuel cs objs m = Some (objs', m') ->
  map_Forall (fun _ s => session_inv s) objs'.
Proof.
  revert objs m. induction cs as [|c cs IH]; intros objs m Hall.
  - intros [= <- _]. exact Hall.
  - cbn [run]. unfold bind.
    destruct (exec fuel c objs m) as [[objs1 m1]|] eqn:Hexec; [|discriminate].
    apply IH. eapply exec_inv; [exact Hall|exact Hexec].
Qed.

(** C9. In every state that a program reaches from no objects at all, by
    constructing, move-constructing, move-assigning, destroying,
    connecting, disconnecting, reading, writing and configuring objects
    in any order and against any environment, every live object whose
    [connected_] flag is set has a non-null handle; and a destructor
    that starts on such an object leaves the fields null and
    disconnected. *)
Theorem connected_implies_handle fuel :
  (forall cs (m m' : machine W) (objs : gmap nat session),
      run fuel cs ∅ m = Some (objs, m') ->
      forall this s, objs !! this = Some s ->
                     connected_ s = true -> ctx_ s <> None) /\
  (forall s (m m' : machine W) s',
      (connected_ s = true -> ctx_ s <> None) ->
      ModbusConnection_destructor s m = Some (s', m') ->
      connected_ s' = true -> ctx_ s' <> None).
Proof.
  split.
  - intros cs m m' objs Hrun this s Hthis.
    eapply (run_inv fuel cs ∅ objs m m'); [|exact Hrun|exact Hthis].
    apply map_Forall_empty.
  - intros s m m' s' Hinv Hrun Hconn.
    apply destructor_inv in Hrun as [_ Hoff]; [congruence|exact Hinv].
Qed.

(** C10. A successful [connect] (on a session that was already connected
    or that it opened), a successful read or write wrapper and a
    successful [set_slave_id] leave [last_error_] as it was. *)
Theorem success_keeps_last_error fuel :
  (forall this (m m' : machine W) this',
      connect this m = Some ((true, this'), m') ->
      get_last_error this' = get_last_error this) /\
  (forall q this (m m' : machine W) this' out,
      invoke fuel q this m = Some ((true, this', out), m') ->
      get_last_error this' = get_last_error this) /\
  (forall slave_id this (m m' : machine W) this',
      set_slave_id this slave_id m = Some ((true, this'), m') ->
      get_last_error this' = get_last_error this).
Proof.
  unfold get_last_error. repeat split.
  - intros this m m' this' Hrun.
    apply connect_fields in Hrun as (_ & Hmsg & _). auto.
  - intros q this m m' this' out Hrun.
    apply invoke_fields in Hrun as (_ & _ & Hmsg). auto.
  - intros slave_id this m m' this' Hrun.
    apply set_slave_id_fields in Hrun as (_ & _ & Hmsg). auto.
Qed.

(** ** An object whose allocation failed *)

Lemma member_dead_end fuel c this (m : machine W) :
  ctx_ this = None ->
  connected_ this = false ->
  exists out,
    member fuel c this m
    = Some ((dead_end_result c,
             Session None false (dead_end_message (last_error_ this) c),
             out), m).
Proof.
  intros Hctx Hconn. destruct this as [ctx conn msg]. cbn in Hctx, Hconn.
  subst ctx conn. destruct c; cbn [member dead_end_result dead_end_message].
  - eexists. reflexivity.
  - eexists. reflexivity.
  - exists (out_before q). unfold bind.
    rewrite invoke_disconnected by reflexivity. reflexivity.
  - eexists. reflexivity.
  - eexists. reflexivity.
Qed.

Lemma members_dead_end fuel cs msg (m : machine W) :
  members fuel cs (Session None false msg) m
  = Some ((map dead_end_result cs,
           Session None false (fold_left dead_end_message cs msg)), m).
Proof.
  revert msg. induction cs as [|c cs IH]; intros msg; [reflexivity|].
  cbn [members map fold_left]. unfold bind at 1.
  destruct (member_dead_end fuel c (Session None false msg) m eq_refl eq_refl)
    as [out ->].
  unfold bind. rewrite IH. reflexivity.
Qed.

(** C6, as the code has it.  When [modbus_new_tcp] returns null, the
    constructed object has a null handle, is not connected, and
    [last_error_] is "Failed to create MODBUS context".  From then on,
    whatever member functions are called on it and in whatever order,
    no external call is made (the machine stays as it is), the handle
    stays null and the flag false; [connect] and [set_slave_id] return
    false with "Invalid MODBUS context", every read and write wrapper
    returns false with "Not connected", and [disconnect] and
    [set_response_timeout] do nothing. *)
Theorem failed_allocation_is_dead_end
    fuel ip_address port (m0 : machine W) w1 :
  modbus_new_tcp ip_address port (world m0) = (None, w1) ->
  exists this,
    ModbusConnection ip_address port m0
    = Some (this,
            Machine w1 (calls m0 ++ [call_modbus_new_tcp ip_address port])) /\
    this = Session None false "Failed to create MODBUS context" /\
    forall (cs : list member_call) (m : machine W),
      members fuel cs this m
      = Some ((map dead_end_result cs,
               Session None false
                 (fold_left dead_end_message cs (last_error_ this))), m).
Proof.
  intros Halloc. eexists. split; [|split; [reflexivity|]].
  - unfold ModbusConnection, bind, extern, ret. rewrite Halloc. reflexivity.
  - intros cs m. apply members_dead_end.
Qed.

(** The fields and the output of a failing wrapper, with the condition
    on the closure under which the read wrappers that pass the caller's
    memory on leave it alone. *)
Lemma failure_fields_and_output
    fuel q this (m m' : machine W) this' out :
  invoke fuel q this m = Some ((false, this', out), m') ->
  ctx_ this' = ctx_ this /\
  connected_ this' = connected_ this /\
  match q with
  | req_read_register _ _ | req_read_registers _ _ _
  | req_read_coils _ _ _ =>
      (forall dest (m1 m2 : machine W) dest',
          attempt q (ctx_ this) dest m1 = Some ((-1, dest'), m2) ->
          dest' = dest) ->
      out = out_before q
  | _ => out = out_before q
  end.
Proof.
  intros Hrun.
  destruct (invoke_fields _ _ _ _ _ _ _ _ Hrun) as (Hctx & Hconn & _).
  split; [exact Hctx|]. split; [exact Hconn|].
  destruct (connected_ this) eqn:Hc.
  2:{ rewrite invoke_disconnected in Hrun by exact Hc.
      injection Hrun as _ <- _. destruct q; auto. }
  rewrite invoke_connected in Hrun by exact Hc.
  destruct (execute_with_data_error_retry _ _ _ _ _ _ _)
    as [[[[r le] dest] m1]|] eqn:Hexec; [|discriminate].
  injection Hrun as -> _ <- _.
  assert (Hquiet :
    (forall d (ma mb : machine W) d',
        attempt q (ctx_ this) d ma = Some ((-1, d'), mb) -> d' = d) ->
    dest = destination q).
  { intros Hprim. rewrite execute_unfold in Hexec.
    rewrite retry_loop_step in Hexec.
    destruct (attempt q (ctx_ this) (destination q) m)
      as [[[rc1 d1] ma]|] eqn:H1; [|discriminate].
    destruct (Z.eqb_spec rc1 (-1)) as [->|Hrc1]; cbn [negb] in Hexec;
      [|discriminate].
    apply Hprim in H1 as ->.
    destruct (_ && _);
      [|injection Hexec as _ <- _; reflexivity].
    destruct (drain_socket_nonblocking _ _ _) as [[[] mb]|]; [|discriminate].
    rewrite retry_loop_step in Hexec.
    destruct (attempt q (ctx_ this) (destination q) mb)
      as [[[rc2 d2] mc]|] eqn:H2; [|discriminate].
    destruct (Z.eqb_spec rc2 (-1)) as [->|Hrc2]; cbn [negb] in Hexec;
      [|discriminate].
    apply Hprim in H2 as ->.
    change (0 + 1 =? 0) with false in Hexec. cbn [andb] in Hexec.
    injection Hexec as _ <- _. reflexivity. }
  destruct q; cbn [out_after out_before]; try reflexivity;
    intros Hprim; rewrite (Hquiet Hprim); reflexivity.
Qed.

(** A closure over a read primitive that keeps the contract leaves its
    memory alone when it fails; a closure over a write has none. *)
Lemma attempt_leaves_dest_on_failure q ctx dest (m1 m2 : machine W) dest' :
  writes_dest_on_success_only ->
  attempt q ctx dest m1 = Some ((-1, dest'), m2) ->
  dest' = dest.
Proof.
  intros [Hregs Hbits].
  destruct q; cbn [attempt]; unfold bind, extern, ret;
    match goal with
    | |- context [modbus_read_registers ?c ?a ?n ?d (world ?mm)] =>
        specialize (Hregs c a n d (world mm));
        destruct (modbus_read_registers c a n d (world mm)) as [[rc d'] w'];
        intros [= -> <- _]; auto
    | |- context [modbus_read_bits ?c ?a ?n ?d (world ?mm)] =>
        specialize (Hbits c a n d (world mm));
        destruct (modbus_read_bits c a n d (world mm)) as [[rc d'] w'];
        intros [= -> <- _]; auto
    | |- context [let (_, _) := ?f (world ?mm) in _] =>
        destruct (f (world mm)) as [rc w']; intros [= _ <- _]; reflexivity
    end.
Qed.

(** C7. When a read or write wrapper returns failure, the handle and the
    [connected_] flag are as before, so [last_error_] is the only field
    that can differ.  The caller's output memory is as before the call:
    for the single-coil read and the writes whatever the primitive does,
    and for the register reads and the batch coil read, which hand the
    caller's memory to the primitive, because a libmodbus read that
    answers -1 has not written to its destination. *)
Theorem failure_changes_last_error_only
    fuel q this (m m' : machine W) this' out :
  invoke fuel q this m = Some ((false, this', out), m') ->
  this' = Session (ctx_ this) (connected_ this) (last_error_ this') /\
  (writes_dest_on_success_only -> out = out_before q) /\
  match q with
  | req_read_register _ _ | req_read_registers _ _ _
  | req_read_coils _ _ _ => True
  | _ => out = out_before q
  end.
Proof.
  intros Hrun.
  destruct (failure_fields_and_output _ _ _ _ _ _ _ Hrun)
    as (Hctx & Hconn & Hout).
  split; [destruct this'; cbn in *; congruence|]. split.
  - intros Hlib.
    destruct q; try exact Hout; apply Hout; intros dest m1 m2 dest';
      apply attempt_leaves_dest_on_failure; exact Hlib.
  - destruct q; first [exact Hout | exact I].
Qed.

(** ** The lifecycle: connect, disconnect, destruction and moves *)

Lemma connect_loop_success n attempt this (m : machine W) this' m' :
  connect_loop n attempt this m = Some ((Some true, this'), m') ->
  this' = set_connected this true.
Proof.
  revert attempt m. induction n as [|n IH]; intros attempt m; [discriminate|].
  rewrite connect_loop_step.
  destruct (modbus_connect (ctx_ this) (world m)) as [rc w1]. cbv zeta.
  destruct (rc =? 0); [intros [= <- _]; reflexivity|].
  destruct (_ && _); [apply IH|discriminate].
Qed.

(** What a successful [connect] leaves: a non-null handle, and either
    the session as it was (already connected) or the same session with
    the flag set. *)
Lemma connect_success this (m : machine W) this' m' :
  connect this m = Some ((true, this'), m') ->
  ctx_ this <> None /\
  (connected_ this = true /\ this' = this /\ m' = m \/
   connected_ this = false /\ this' = set_connected this true).
Proof.
  unfold connect. destruct (ctx_ this) as [c|] eqn:Hc; cbn [is_null];
    [|discriminate].
  destruct (connected_ this) eqn:Hconn.
  { intros [= <- <-]. split; [discriminate|]. left. auto. }
  unfold bind, ret.
  destruct (connect_loop _ _ _ _) as [[[[[]|] this1] m1]|] eqn:Hloop;
    try discriminate.
  intros [= <- _]. split; [discriminate|]. right. split; [reflexivity|].
  exact (connect_loop_success _ _ _ _ _ _ Hloop).
Qed.

(** X1. [connect] is idempotent: once a [connect] has returned true,
    calling it again returns true at once, with no external call and
    the fields as they are. *)
Theorem connect_again_is_free this (m m' : machine W) this' :
  connect this m = Some ((true, this'), m') ->
  connect this' m' = Some ((true, this'), m').
Proof.
  intros Hrun.
  apply connect_success in Hrun as [Hctx [(Hconn & -> & _)|(_ & ->)]];
    unfold connect; destruct (ctx_ this) as [c|] eqn:Hc; try contradiction;
    cbn [set_connected ctx_ connected_ is_null]; rewrite ?Hc, ?Hconn;
    reflexivity.
Qed.

(** X2. Connecting and then disconnecting is a round trip on the fields:
    when [connect] succeeds on a session that was not connected,
    [disconnect] calls [modbus_close] once on the handle and gives the
    session back exactly as it was before [connect]. *)
Theorem connect_disconnect_round_trip this (m m' : machine W) this' :
  connected_ this = false ->
  connect this m = Some ((true, this'), m') ->
  disconnect this' m'
  = Some (this,
          Machine (modbus_close (ctx_ this) (world m'))
                  (calls m' ++ [call_modbus_close (ctx_ this)])).
Proof.
  intros Hoff Hrun.
  apply connect_success in Hrun as [Hctx [(Hconn & _)|(_ & ->)]];
    [congruence|].
  destruct this as [ctx conn msg]. cbn in Hoff, Hctx. subst conn.
  destruct ctx as [c|]; [|contradiction]. reflexivity.
Qed.

(** X3. [disconnect] always returns; it calls [modbus_close], once,
    exactly when the handle is non-null and the flag is set, never
    touches the handle or [last_error_], leaves the flag false whenever
    the handle is non-null, leaves the session and the machine exactly
    as they are when the handle is null (the flag stays as it was, set
    or not), and a second [disconnect] right after it does nothing at
    all. *)
Theorem disconnect_is_idempotent this (m : machine W) :
  exists this' m',
    disconnect this m = Some (this', m') /\
    ctx_ this' = ctx_ this /\
    last_error_ this' = last_error_ this /\
    (ctx_ this <> None -> connected_ this' = false) /\
    (ctx_ this = None -> this' = this /\ m' = m) /\
    calls m' = calls m ++
               (if negb (is_null (ctx_ this)) && connected_ this
                then [call_modbus_close (ctx_ this)] else []) /\
    disconnect this' m' = Some (this', m').
Proof.
  destruct this as [[c|] [|] msg]; unfold disconnect, bind, extern_, ret;
    cbn; do 2 eexists; (split; [reflexivity|]);
    rewrite ?app_nil_r; repeat split; congruence.
Qed.

(** X4. The destructor always returns with a null handle.  It calls
    [modbus_close] exactly when the handle is non-null and the flag is
    set, then [modbus_free] exactly when the handle is non-null, each
    once and in that order; on a null handle it makes no call.  Running
    it again on what it left makes no call. *)
Theorem destructor_releases_once this (m : machine W) :
  exists this' m',
    ModbusConnection_destructor this m = Some (this', m') /\
    ctx_ this' = None /\
    last_error_ this' = last_error_ this /\
    calls m' = calls m ++
               (if negb (is_null (ctx_ this)) && connected_ this
                then [call_modbus_close (ctx_ this)] else []) ++
               (if negb (is_null (ctx_ this))
                then [call_modbus_free (ctx_ this)] else []) /\
    ModbusConnection_destructor this' m' = Some (this', m').
Proof.
  destruct this as [[c|] [|] msg];
    unfold ModbusConnection_destructor, disconnect, bind, extern_, ret;
    cbn; do 2 eexists; (split; [reflexivity|]);
    rewrite <- ?app_assoc, ?app_nil_r; repeat split; reflexivity.
Qed.

(** X5. The move constructor transfers ownership: the new object has
    exactly the fields of the source, the source is left with a null
    handle and not connected, and destroying the moved-from source makes
    no external call, so the handle is closed and freed by the new
    object alone. *)
Theorem move_transfers_ownership other (m : machine W) :
  let '(this, other') := ModbusConnection_move other in
  this = other /\
  ctx_ other' = None /\
  is_connected other' = false /\
  ModbusConnection_destructor other' m = Some (other', m) /\
  ModbusConnection_destructor this m = ModbusConnection_destructor other m.
Proof.
  destruct other as [ctx conn msg]. cbn. repeat split.
Qed.

(** X6. Move assignment between two distinct objects first releases what
    the target held, with the same external calls as the target's
    destructor, then gives the target exactly the fields of the source
    and leaves the source with a null handle and not connected. *)
Theorem move_assignment_releases_target this other (m : machine W) :
  exists released m',
    ModbusConnection_destructor this m = Some (released, m') /\
    operator_assign this other m
    = Some ((other,
             Session None false (moved_from (last_error_ other))), m').
Proof.
  destruct other as [octx oconn omsg].
  destruct this as [[c|] [|] msg];
    unfold ModbusConnection_destructor, operator_assign, disconnect, bind,
      extern_, ret; cbn; do 2 eexists; split; reflexivity.
Qed.

(** X7. [set_slave_id] consults the handle only, not the [connected_]
    flag.  On a null handle it fails with "Invalid MODBUS context" and
    makes no call.  Otherwise it calls [modbus_set_slave] once; only the
    answer -1 is a failure, reported as "Set slave failed: " followed by
    the description of [errno]; any other answer returns true and leaves
    the session as it was.  The handle and the flag never change. *)
Theorem set_slave_id_outcomes this slave_id (m : machine W) :
  let '(rc, w) := modbus_set_slave (ctx_ this) slave_id (world m) in
  let m1 := Machine w (calls m ++
                       [call_modbus_set_slave (ctx_ this) slave_id]) in
  (ctx_ this = None ->
   set_slave_id this slave_id m
   = Some ((false, set_last_error this "Invalid MODBUS context"), m)) /\
  (ctx_ this <> None -> rc = -1 ->
   set_slave_id this slave_id m
   = Some ((false,
            set_last_error this
              ("Set slave failed: " +:+ modbus_strerror (errno w))), m1)) /\
  (ctx_ this <> None -> rc <> -1 ->
   set_slave_id this slave_id m = Some ((true, this), m1)) /\
  (forall b,
      set_slave_id (set_connected this b) slave_id m
      = match set_slave_id this slave_id m with
        | Some ((result, this'), m') =>
            Some ((result, set_connected this' b), m')
        | None => None
        end).
Proof.
  destruct this as [ctx conn msg]. cbn [ctx_].
  destruct (modbus_set_slave ctx slave_id (world m)) as [rc w] eqn:Hset.
  cbv zeta. unfold set_slave_id, bind, extern, get_errno, ret.
  cbn [set_connected ctx_ connected_ last_error_].
  destruct ctx as [c|]; cbn [is_null]; cbv beta; rewrite ?Hset.
  - split; [discriminate|]. split; [|split].
    + intros _ ->. reflexivity.
    + intros _ Hrc. replace (rc =? -1) with false by lia. reflexivity.
    + intros b. destruct (rc =? -1); reflexivity.
  - split; [reflexivity|]. split; [|split]; try contradiction.
    reflexivity.
Qed.

(** ** More on the retry policy *)

Lemma attempts_made_app l1 l2 :
  attempts_made (l1 ++ l2) = (attempts_made l1 + attempts_made l2)%nat.
Proof.
  unfold attempts_made. rewrite List.filter_app, length_app. reflexivity.
Qed.

Lemma attempts_made_recv fd len flags k :
  attempts_made (repeat (call_recv fd len flags) k) = 0%nat.
Proof. induction k as [|k IH]; [reflexivity|exact IH]. Qed.

Lemma attempts_made_primitive q ctx :
  attempts_made [primitive_call q ctx] = 1%nat.
Proof. destruct q; reflexivity. Qed.

Lemma attempts_made_retry q ctx fd len flags k :
  attempts_made
    ([primitive_call q ctx]
       ++ call_modbus_get_socket ctx :: repeat (call_recv fd len flags) k
       ++ [primitive_call q ctx]) = 2%nat.
Proof.
  rewrite attempts_made_app, attempts_made_primitive.
  change (call_modbus_get_socket ctx :: ?l)
    with ([call_modbus_get_socket ctx] ++ l).
  rewrite !attempts_made_app, attempts_made_recv, attempts_made_primitive.
  reflexivity.
Qed.

(** The two shapes of the log of the helper on the closure of [q]. *)
Lemma execute_log fuel q ctx last_error prefix b (m m' : machine W) res :
  execute_with_data_error_retry fuel ctx last_error prefix (attempt q ctx) b m
  = Some (res, m') ->
  exists fd k,
    calls m' = calls m ++ [primitive_call q ctx] \/
    calls m' = calls m ++ [primitive_call q ctx]
                 ++ call_modbus_get_socket ctx
                    :: repeat (call_recv fd 256 MSG_DONTWAIT) k
                 ++ [primitive_call q ctx].
Proof.
  rewrite execute_unfold, retry_loop_step.
  destruct (attempt q ctx b m) as [[[rc1 b1] m1]|] eqn:H1; [|discriminate].
  assert (Hone : forall x : option (bool * string * list Z * machine W),
             x = Some (res, m') ->
             match x with Some (_, mx) => mx = m1 | None => True end ->
             exists fd k,
               calls m' = calls m ++ [primitive_call q ctx] \/
               calls m' = calls m ++ [primitive_call q ctx]
                            ++ call_modbus_get_socket ctx
                               :: repeat (call_recv fd 256 MSG_DONTWAIT) k
                            ++ [primitive_call q ctx]).
  { intros x -> ->. exists 0, 0%nat. left. exact (attempt_log _ _ _ _ _ _ H1). }
  destruct (negb (rc1 =? -1)); [intros Hx; exact (Hone _ Hx eq_refl)|].
  destruct (_ && _); [|intros Hx; exact (Hone _ Hx eq_refl)].
  destruct (drain_socket_nonblocking fuel ctx m1) as [[[] m2]|] eqn:Hd;
    [|discriminate].
  rewrite retry_loop_step.
  destruct (attempt q ctx b1 m2) as [[[rc2 b2] m3]|] eqn:H2; [|discriminate].
  destruct (retry_log _ _ _ _ _ _ _ _ _ _ _ H1 Hd H2) as (fd & k & Hlog).
  intros Hx. exists fd, k. right.
  change (0 + 1 =? 0) with false in Hx. cbn [andb] in Hx.
  destruct (negb (rc2 =? -1)); injection Hx as _ <-; exact Hlog.
Qed.

(** X8. On a connected session, when the primitive answers anything but
    -1 on the first attempt, the wrapper returns true after that single
    call: nothing is drained, the fields (with [last_error_]) are as
    they were, and the caller's output is what the primitive wrote. *)
Theorem first_attempt_success fuel q this (m0 m1 : machine W) rc dest1 :
  connected_ this = true ->
  attempt q (ctx_ this) (destination q) m0 = Some ((rc, dest1), m1) ->
  rc <> -1 ->
  invoke fuel q this m0 = Some ((true, this, out_after q true dest1), m1) /\
  calls m1 = calls m0 ++ [primitive_call q (ctx_ this)].
Proof.
  intros Hconn H1 Hrc. split.
  - rewrite invoke_connected by exact Hconn.
    rewrite (execute_first_success _ _ _ _ _ _ _ _ _ _ H1 Hrc).
    rewrite set_last_error_same. reflexivity.
  - exact (attempt_log _ _ _ _ _ _ H1).
Qed.

(** X9. Whatever the environment does, a read or write wrapper that
    returns has called its primitive at most twice and drained at most
    once, one time fewer than it called the primitive; it has called
    nothing but its primitive, [modbus_get_socket] and [recv]; and it
    has changed neither the handle nor the [connected_] flag, so a data
    error never disconnects the session. *)
Theorem wrapper_call_budget fuel q this (m m' : machine W) result this' out :
  invoke fuel q this m = Some ((result, this', out), m') ->
  ctx_ this' = ctx_ this /\
  connected_ this' = connected_ this /\
  exists new,
    calls m' = calls m ++ new /\
    (attempts_made new <= 2)%nat /\
    (connected_ this = true ->
     attempts_made new = S (drain_invocations new)) /\
    (connected_ this = false -> new = []) /\
    Forall (fun c => c = primitive_call q (ctx_ this) \/
                     c = call_modbus_get_socket (ctx_ this) \/
                     exists fd, c = call_recv fd 256 MSG_DONTWAIT) new.
Proof.
  intros Hrun.
  destruct (invoke_fields _ _ _ _ _ _ _ _ Hrun) as (Hctx & Hconn & _).
  split; [exact Hctx|]. split; [exact Hconn|].
  destruct (connected_ this) eqn:Hc.
  2:{ rewrite invoke_disconnected in Hrun by exact Hc.
      injection Hrun as _ _ _ <-. exists []. rewrite app_nil_r.
      split; [reflexivity|]. split; [cbn; lia|]. split; [discriminate|].
      split; [reflexivity|constructor]. }
  rewrite invoke_connected in Hrun by exact Hc.
  destruct (execute_with_data_error_retry _ _ _ _ _ _ _)
    as [[res m1]|] eqn:Hexec; [|discriminate].
  destruct res as [[r le] dest]. injection Hrun as _ _ _ <-.
  apply execute_log in Hexec as (fd & k & [Hlog|Hlog]);
    eexists; (split; [exact Hlog|]).
  - rewrite attempts_made_primitive, drain_invocations_primitive.
    split; [lia|]. split; [reflexivity|]. split; [discriminate|].
    constructor; [left; reflexivity|constructor].
  - rewrite attempts_made_retry, drain_invocations_retry.
    split; [lia|]. split; [reflexivity|]. split; [discriminate|].
    apply Forall_app. split; [constructor; [left; reflexivity|constructor]|].
    constructor; [right; left; reflexivity|].
    apply Forall_app. split.
    + apply Forall_forall. intros c Hin.
      apply list_elem_of_In, repeat_spec in Hin.
      right; right. exists fd. exact Hin.
    + constructor; [left; reflexivity|constructor].
Qed.

(** Where the memory of a successful run of the helper comes from: the
    last call of the closure, which did not answer -1. *)
Lemma execute_success_source {B : Type} fuel ctx last_error prefix
    (operation : B -> M W (Z * B)) b (m m' : machine W) le b' :
  execute_with_data_error_retry fuel ctx last_error prefix operation b m
  = Some ((true, le, b'), m') ->
  exists b0 m1 rc,
    operation b0 m1 = Some ((rc, b'), m') /\ rc <> -1.
Proof.
  rewrite execute_unfold, retry_loop_step.
  destruct (operation b m) as [[[rc1 b1] m1]|] eqn:H1; [|discriminate].
  destruct (Z.eqb_spec rc1 (-1)) as [->|Hrc1]; cbn [negb].
  2:{ intros [= _ <- <-]. exists b, m, rc1. auto. }
  destruct (_ && _); [|discriminate].
  destruct (drain_socket_nonblocking fuel ctx m1) as [[[] m2]|];
    [|discriminate].
  rewrite retry_loop_step.
  destruct (operation b1 m2) as [[[rc2 b2] m3]|] eqn:H2; [|discriminate].
  destruct (Z.eqb_spec rc2 (-1)) as [->|Hrc2]; cbn [negb].
  2:{ intros [= _ <- <-]. exists b1, m2, rc2. auto. }
  change (0 + 1 =? 0) with false. cbn [andb]. discriminate.
Qed.

(** X10. [read_coil] hands [modbus_read_bits] a one-byte destination
    that starts at 0.  When it returns true, the caller's flag is true
    exactly when the first byte of the destination after the successful
    call is non-zero.  That call is the first one, on the destination
    [0], when the first one does not answer -1; otherwise it is a second
    one, on what the first left, and did not answer -1.  So when the
    first call succeeds without writing, the flag is false. *)
Theorem read_coil_converts_byte
    fuel this address value (m m' : machine W) this' value' :
  read_coil fuel this address value m = Some ((true, this', value'), m') ->
  let '(rc1, dest1, w1) :=
    modbus_read_bits (ctx_ this) address 1 [0] (world m) in
  exists dest,
    value' = negb (hd 0 dest =? 0) /\
    (value' = true <-> hd 0 dest <> 0) /\
    (rc1 <> -1 -> dest = dest1 /\ world m' = w1) /\
    (rc1 = -1 ->
     exists w2 rc2,
       modbus_read_bits (ctx_ this) address 1 dest1 w2
       = (rc2, dest, world m') /\ rc2 <> -1) /\
    (rc1 <> -1 -> dest1 = [0] -> value' = false).
Proof.
  unfold read_coil. destruct (connected_ this); cbn [negb]; [|discriminate].
  unfold bind at 1. rewrite execute_unfold, retry_loop_step.
  unfold extern at 1.
  destruct (modbus_read_bits (ctx_ this) address 1 [0] (world m))
    as [[rc1 dest1] w1] eqn:H1.
  assert (Hiff : forall dest,
             negb (hd 0 dest =? 0) = true <-> hd 0 dest <> 0).
  { intros dest. rewrite negb_true_iff, Z.eqb_neq. tauto. }
  destruct (Z.eqb_spec rc1 (-1)) as [->|Hrc1]; cbn [negb].
  2:{ intros [= _ <- <-]. exists dest1. cbn [world].
      split; [reflexivity|]. split; [apply Hiff|]. split; [auto|].
      split; [contradiction|]. intros _ ->. reflexivity. }
  destruct (_ && _); [|discriminate].
  destruct (drain_socket_nonblocking _ _ _) as [[[] m2]|]; [|discriminate].
  rewrite retry_loop_step. unfold extern at 1.
  destruct (modbus_read_bits (ctx_ this) address 1 dest1 (world m2))
    as [[rc2 dest2] w2] eqn:H2.
  destruct (Z.eqb_spec rc2 (-1)) as [->|Hrc2]; cbn [negb].
  { change (0 + 1 =? 0) with false. cbn [andb]. discriminate. }
  intros [= _ <- <-]. exists dest2. cbn [world].
  split; [reflexivity|]. split; [apply Hiff|].
  split; [contradiction|]. split; [|contradiction].
  intros _. exists (world m2), rc2. auto.
Qed.

(** ** The drain routine returns when the socket goes quiet *)

Lemma drain_loop_quiet k fd (m : machine W) :
  quiet_within k fd (world m) ->
  exists m' j,
    drain_loop (S k) fd m = Some (tt, m') /\
    (1 <= j <= S k)%nat /\
    calls m' = calls m ++ repeat (call_recv fd 256 MSG_DONTWAIT) j.
Proof.
  revert m. induction k as [|k IH]; intros m Hq;
    cbn [quiet_within] in Hq; cbn [drain_loop];
    unfold bind, extern, get_errno, ret;
    destruct (recv fd 256 MSG_DONTWAIT (world m)) as [n w] eqn:Hrecv.
  - destruct Hq as [Hn|[]].
    replace (n >? 0) with false by lia.
    exists (Machine w (calls m ++ [call_recv fd 256 MSG_DONTWAIT])), 1%nat.
    destruct (n =? 0); [|destruct (_ || _)]; repeat split; lia.
  - destruct (n >? 0) eqn:Hpos.
    + destruct Hq as [Hn|Hq]; [lia|].
      destruct (IH (Machine w (calls m ++ [call_recv fd 256 MSG_DONTWAIT]))
                  Hq) as (m' & j & Hrun & Hj & Hlog).
      exists m', (S j). split; [exact Hrun|]. split; [lia|].
      rewrite Hlog. cbn [calls repeat]. rewrite <- app_assoc. reflexivity.
    + exists (Machine w (calls m ++ [call_recv fd 256 MSG_DONTWAIT])), 1%nat.
      destruct (n =? 0); [|destruct (_ || _)]; repeat split; lia.
Qed.

(** X11. The drain routine asks for the socket once.  On a negative
    descriptor it reads nothing.  Otherwise, when the socket reports no
    data, end of stream or an error after at most [k] reads that
    returned data, the routine returns for every bound above [k], after
    at least one and at most [k + 1] non-blocking reads of 256 bytes,
    and makes no other call. *)
Theorem drain_returns_when_quiet k ctx (m : machine W) fuel :
  (k < fuel)%nat ->
  let '(fd, w) := modbus_get_socket ctx (world m) in
  (fd < 0 ->
   drain_socket_nonblocking fuel ctx m
   = Some (tt, Machine w (calls m ++ [call_modbus_get_socket ctx]))) /\
  (0 <= fd -> quiet_within k fd w ->
   exists m' j,
     drain_socket_nonblocking fuel ctx m = Some (tt, m') /\
     (1 <= j <= S k)%nat /\
     calls m' = calls m ++ call_modbus_get_socket ctx
                        :: repeat (call_recv fd 256 MSG_DONTWAIT) j).
Proof.
  intros Hfuel.
  destruct (modbus_get_socket ctx (world m)) as [fd w] eqn:Hsock.
  unfold drain_socket_nonblocking, bind, extern, ret. rewrite Hsock. split.
  - intros Hneg. replace (fd <? 0) with true by lia. reflexivity.
  - intros Hpos Hq. replace (fd <? 0) with false by lia.
    destruct (drain_loop_quiet k fd
                (Machine w (calls m ++ [call_modbus_get_socket ctx])) Hq)
      as (m' & j & Hrun & Hj & Hlog).
    exists m', j. split; [|split; [exact Hj|]].
    + eapply drain_loop_fuel_mono; [exact Hrun|lia].
    + rewrite Hlog. cbn [calls]. rewrite <- app_assoc. reflexivity.
Qed.

(** ** The error string holds the latest failure only *)

Lemma retry_loop_last_error {B : Type} n attempt fuel ctx le1 le2 prefix
    (operation : B -> M W (Z * B)) b (m : machine W) :
  retry_loop n attempt fuel ctx le1 prefix operation b m =
  match retry_loop n attempt fuel ctx le2 prefix operation b m with
  | Some ((returned, le, b'), m') =>
      Some ((returned,
             match returned with Some false => le | _ => le1 end, b'), m')
  | None => None
  end.
Proof.
  revert attempt b m. induction n as [|n IH]; intros attempt b m;
    [reflexivity|].
  rewrite !retry_loop_step.
  destruct (operation b m) as [[[rc b1] m1]|]; [|reflexivity].
  destruct (negb (rc =? -1)); [reflexivity|].
  destruct (_ && _); [|reflexivity].
  destruct (drain_socket_nonblocking fuel ctx m1) as [[[] m2]|];
    [apply IH|reflexivity].
Qed.

(** X12. A failing wrapper overwrites the error string, it does not add
    to it: the session and output it leaves, and so the message, are the
    same whatever [last_error_] held before the call. *)
Theorem failure_overwrites_last_error
    fuel q this msg (m m' : machine W) this' out :
  invoke fuel q this m = Some ((false, this', out), m') ->
  invoke fuel q (set_last_error this msg) m = Some ((false, this', out), m').
Proof.
  destruct (connected_ this) eqn:Hc.
  2:{ rewrite !invoke_disconnected by exact Hc. intros <-. reflexivity. }
  rewrite !invoke_connected by exact Hc.
  cbn [set_last_error ctx_ last_error_].
  rewrite !execute_unfold.
  rewrite (retry_loop_last_error 2 0 fuel (ctx_ this) msg (last_error_ this)).
  destruct (retry_loop 2 0 fuel (ctx_ this) (last_error_ this) _ _ _ m)
    as [[[[[[|]|] le] dest] m1]|] eqn:Hloop; try discriminate.
  - intros Hx. exact Hx.
  - apply retry_loop_returns in Hloop as [[? _]|[? _]]; discriminate.
Qed.

(** ** Single ownership of handles *)

Lemma exclusive_insert (objs : gmap nat session) i s :
  exclusive_handles objs ->
  (forall j t, j <> i -> objs !! j = Some t ->
               ctx_ s <> None -> ctx_ s <> ctx_ t) ->
  exclusive_handles (<[i := s]> objs).
Proof.
  intros Hex Hnew a b x y Hab Ha Hb Hx.
  destruct (decide (a = i)) as [->|Hai].
  - rewrite lookup_insert_eq in Ha. injection Ha as <-.
    rewrite lookup_insert_ne in Hb by congruence.
    apply (Hnew b y); auto.
  - rewrite lookup_insert_ne in Ha by congruence.
    destruct (decide (b = i)) as [->|Hbi].
    + rewrite lookup_insert_eq in Hb. injection Hb as <-.
      intros Heq. apply (Hnew a x Hai Ha); congruence.
    + rewrite lookup_insert_ne in Hb by congruence.
      apply (Hex a b); auto.
Qed.

(** Replacing an object by one with the same handle, or with none. *)
Lemma exclusive_update (objs : gmap nat session) i s s' :
  exclusive_handles objs ->
  objs !! i = Some s ->
  ctx_ s' = ctx_ s \/ ctx_ s' = None ->
  exclusive_handles (<[i := s']> objs).
Proof.
  intros Hex Hi Hctx. apply exclusive_insert; [exact Hex|].
  intros j t Hji Hj Hnn. destruct Hctx as [Hsame|Hnull]; [|contradiction].
  rewrite Hsame in *. apply (Hex i j s t); auto.
Qed.

Lemma exclusive_delete (objs : gmap nat session) i :
  exclusive_handles objs -> exclusive_handles (delete i objs).
Proof.
  intros Hex a b x y Hab Ha Hb.
  apply lookup_delete_Some in Ha as [_ Ha].
  apply lookup_delete_Some in Hb as [_ Hb].
  apply (Hex a b); auto.
Qed.

(** Handing the handle of [other] to [this] and leaving [other] without
    one, as both moves do. *)
Lemma exclusive_transfer (objs : gmap nat session) this other o s o' :
  exclusive_handles objs ->
  this <> other ->
  objs !! other = Some o ->
  ctx_ s = ctx_ o ->
  ctx_ o' = None ->
  exclusive_handles (<[this := s]> (<[other := o']> objs)).
Proof.
  intros Hex Hne Hother Hs Ho'.
  apply exclusive_insert.
  - apply (exclusive_update objs other o o'); auto.
  - intros j t Hj Hlook Hnn. destruct (decide (j = other)) as [->|Hjo].
    + rewrite lookup_insert_eq in Hlook. injection Hlook as <-. congruence.
    + rewrite lookup_insert_ne in Hlook by congruence.
      rewrite Hs in *. apply (Hex other j o t); auto.
Qed.

(** Move assignment on a machine: the fields it leaves. *)
Lemma move_assignment_fields this other (m : machine W) :
  exists m',
    operator_assign this other m
    = Some ((other,
             Session None false (moved_from (last_error_ other))), m').
Proof.
  destruct other as [octx oconn omsg].
  destruct this as [[c|] [|] msg];
    unfold operator_assign, disconnect, bind, extern_, ret; cbn;
    eexists; reflexivity.
Qed.

(** X13. One command keeps handles singly owned: if no two live objects
    share a non-null handle before it, and the allocator does not hand
    out a handle that a live object still holds, then no two live
    objects share one after it.  Both moves leave the source without a
    handle, and no member function copies or changes one. *)
Theorem exec_keeps_handles_exclusive
    fuel c (objs objs' : gmap nat session) (m m' : machine W) :
  exclusive_handles objs ->
  (forall this ip_address port j t,
      c = cmd_construct this ip_address port ->
      objs !! j = Some t ->
      fst (modbus_new_tcp ip_address port (world m)) <> None ->
      fst (modbus_new_tcp ip_address port (world m)) <> ctx_ t) ->
  exec fuel c objs m = Some (objs', m') ->
  exclusive_handles objs'.
Proof.
  intros Hex Halloc. destruct c; cbn [exec].
  - destruct (objs !! this) eqn:Hthis; [intros [= <- _]; exact Hex|].
    unfold ModbusConnection, bind, extern, ret.
    specialize (Halloc this ip_address port).
    destruct (modbus_new_tcp ip_address port (world m)) as [ctx w1].
    cbn [fst ctx_ connected_ last_error_] in *.
    assert (Hfresh : forall s, ctx_ s = ctx ->
              exclusive_handles (<[this := s]> objs)).
    { intros s Hs. apply exclusive_insert; [exact Hex|].
      intros j t _ Hj Hnn. rewrite Hs in *.
      exact (Halloc j t eq_refl Hj Hnn). }
    destruct (is_null ctx); intros [= <- _]; apply Hfresh; reflexivity.
  - destruct (objs !! this) eqn:Hthis; [intros [= <- _]; exact Hex|].
    destruct (objs !! other) as [o|] eqn:Hother;
      [|intros [= <- _]; exact Hex].
    unfold ModbusConnection_move. intros [= <- _].
    apply (exclusive_transfer objs this other o); auto. congruence.
  - destruct (objs !! this) as [s|] eqn:Hthis;
      [|intros [= <- _]; exact Hex].
    destruct (objs !! other) as [o|] eqn:Hother;
      [|intros [= <- _]; exact Hex].
    destruct (decide (this = other)) as [|Hne]; [intros [= <- _]; exact Hex|].
    unfold bind, ret.
    destruct (move_assignment_fields s o m) as (m1 & ->).
    intros [= <- _].
    apply (exclusive_transfer objs this other o); auto.
  - destruct (objs !! this) as [s|] eqn:Hthis;
      [|intros [= <- _]; exact Hex].
    unfold bind, ret.
    destruct (ModbusConnection_destructor s m) as [[s' m1]|]; [|discriminate].
    intros [= <- _]. apply exclusive_delete. exact Hex.
  - destruct (objs !! this) as [s|] eqn:Hthis;
      [|intros [= <- _]; exact Hex].
    unfold bind, ret.
    destruct (connect s m) as [[[r s'] m1]|] eqn:Hrun; [|discriminate].
    intros [= <- _]. apply connect_fields in Hrun as (Hctx & _).
    apply (exclusive_update objs this s); auto.
  - destruct (objs !! this) as [s|] eqn:Hthis;
      [|intros [= <- _]; exact Hex].
    unfold bind, ret.
    destruct (disconnect s m) as [[s' m1]|] eqn:Hrun; [|discriminate].
    intros [= <- _]. apply disconnect_fields in Hrun as (Hctx & _).
    apply (exclusive_update objs this s); auto.
  - destruct (objs !! this) as [s|] eqn:Hthis;
      [|intros [= <- _]; exact Hex].
    unfold bind, ret.
    destruct (invoke fuel q s m) as [[[[r s'] out] m1]|] eqn:Hrun;
      [|discriminate].
    intros [= <- _]. apply invoke_fields in Hrun as (Hctx & _).
    apply (exclusive_update objs this s); auto.
  - destruct (objs !! this) as [s|] eqn:Hthis;
      [|intros [= <- _]; exact Hex].
    unfold bind, ret.
    destruct (set_slave_id s slave_id m) as [[[r s'] m1]|] eqn:Hrun;
      [|discriminate].
    intros [= <- _]. apply set_slave_id_fields in Hrun as (Hctx & _).
    apply (exclusive_update objs this s); auto.
  - destruct (objs !! this) as [s|] eqn:Hthis;
      [|intros [= <- _]; exact Hex].
    unfold bind, ret.
    destruct (set_response_timeout s seconds microseconds m)
      as [[[] m1]|]; [|discriminate].
    intros [= <- _]. exact Hex.
Qed.

(** ** Sequences of member calls *)

Lemma member_fields fuel c this (m m' : machine W) r this' out :
  member fuel c this m = Some ((r, this', out), m') ->
  ctx_ this' = ctx_ this /\
  (r <> Some false -> last_error_ this' = last_error_ this).
Proof.
  destruct c; cbn [member]; unfold bind, ret.
  - destruct (connect this m) as [[[b s] m1]|] eqn:Hrun; [|discriminate].
    intros [= <- <- _ _]. apply connect_fields in Hrun as (Hctx & Hmsg & _).
    split; [exact Hctx|]. intros Hr. apply Hmsg. destruct b; congruence.
  - destruct (disconnect this m) as [[s m1]|] eqn:Hrun; [|discriminate].
    intros [= _ <- _ _]. apply disconnect_fields in Hrun as (Hctx & Hmsg & _).
    auto.
  - destruct (invoke fuel q this m) as [[[[b s] o] m1]|] eqn:Hrun;
      [|discriminate].
    intros [= <- <- _ _]. apply invoke_fields in Hrun as (Hctx & _ & Hmsg).
    split; [exact Hctx|]. intros Hr. apply Hmsg. destruct b; congruence.
  - destruct (set_slave_id this slave_id m) as [[[b s] m1]|] eqn:Hrun;
      [|discriminate].
    intros [= <- <- _ _].
    apply set_slave_id_fields in Hrun as (Hctx & _ & Hmsg).
    split; [exact Hctx|]. intros Hr. apply Hmsg. destruct b; congruence.
  - destruct (set_response_timeout this seconds microseconds m)
      as [[[] m1]|]; [|discriminate].
    intros [= _ <- _ _]. auto.
Qed.

(** X14. Over any sequence of member calls ([connect], [disconnect],
    the read and write wrappers, [set_slave_id],
    [set_response_timeout]) the handle stays the one the object started
    with, and [last_error_] is as it was unless some call of the
    sequence returned false. *)
Theorem member_calls_keep_handle
    fuel cs this (m m' : machine W) results this' :
  members fuel cs this m = Some ((results, this'), m') ->
  get_context this' = get_context this /\
  (Forall (fun r => r <> Some false) results ->
   get_last_error this' = get_last_error this).
Proof.
  unfold get_context, get_last_error.
  revert this m m' results this'.
  induction cs as [|c cs IH]; intros this m m' results this'.
  - intros [= <- <- _]. auto.
  - cbn [members]. unfold bind at 1.
    destruct (member fuel c this m) as [[[[r s] out] m1]|] eqn:Hone;
      [|discriminate].
    unfold bind, ret.
    destruct (members fuel cs s m1) as [[[rs s'] m2]|] eqn:Hrest;
      [|discriminate].
    intros [= <- <- _].
    apply member_fields in Hone as (Hctx1 & Hmsg1).
    apply IH in Hrest as (Hctx2 & Hmsg2).
    split; [congruence|].
    intros Hall. apply Forall_cons in Hall as [Hr Hrs].
    rewrite (Hmsg2 Hrs). exact (Hmsg1 Hr).
Qed.

End Proofs.

(** * Runs against the test double *)

Section Runs.
Import Stub.

Lemma transient_error_then_success_run :
  invoke 5 read7 online (boot noisy_then_good)
  = Some ((true, online, out_value 42),
          Machine (Make 0 [])
            [call_modbus_read_registers handle 7 1;
             call_modbus_get_socket handle;
             call_recv 4 256 64; call_recv 4 256 64;
             call_modbus_read_registers handle 7 1]).
Proof.
  pose (m0 := boot noisy_then_good).
  pose (m1 := after (attempt read7 handle [0]) m0).
  pose (m2 := after (drain_socket_nonblocking 5 handle) m1).
  pose (m3 := after (attempt read7 handle [0]) m2).
  refine (proj1 (transient_error_then_success
                   5 read7 online m0 m1 m2 m3 [0] 1 [42]
                   eq_refl eq_refl _ eq_refl eq_refl _) 5%nat (le_n 5)).
  - vm_compute. right; right; left; reflexivity.
  - discriminate.
Defined.

Lemma transient_error_twice_run :
  invoke 5 read7 online (boot noisy_twice)
  = Some ((false,
           Session handle true "Read failed: Invalid exception code",
           out_value 0),
          Machine (Make EMBBADEXC [])
            [call_modbus_read_registers handle 7 1;
             call_modbus_get_socket handle;
             call_recv 4 256 64; call_recv 4 256 64;
             call_modbus_read_registers handle 7 1]).
Proof.
  pose (m0 := boot noisy_twice).
  pose (m1 := after (attempt read7 handle [0]) m0).
  pose (m2 := after (drain_socket_nonblocking 5 handle) m1).
  pose (m3 := after (attempt read7 handle [0]) m2).
  refine (proj1 (transient_error_twice
                   5 read7 online m0 m1 m2 m3 [0] [0]
                   eq_refl eq_refl _ eq_refl eq_refl) 5%nat (le_n 5)).
  vm_compute. right; right; left; reflexivity.
Defined.

Lemma other_error_is_terminal_run :
  invoke 5 read7 clean (boot timed_out)
  = Some ((false,
           Session handle true "Read failed: Connection timed out",
           out_value 0),
          Machine (Make ETIMEDOUT [])
            [call_modbus_read_registers handle 7 1]).
Proof.
  pose (m0 := boot timed_out).
  pose (m1 := after (attempt read7 handle [0]) m0).
  refine (proj1 (other_error_is_terminal
                   5 read7 clean m0 m1 [0] eq_refl eq_refl _)).
  vm_compute. intuition discriminate.
Defined.

Lemma not_connected_fails_fast_run :
  invoke 5 read7 offline (boot noisy_then_good)
  = Some ((false, Session handle false "Not connected", out_value 0),
          boot noisy_then_good).
Proof.
  exact (not_connected_fails_fast 5 read7 offline (boot noisy_then_good)
           eq_refl).
Defined.

Lemma connect_retries_on_would_block_run :
  connect offline (boot busy_twice)
  = Some ((true, Session handle true ""),
          Machine (Make 0 [])
            [call_modbus_connect handle; call_usleep 100000;
             call_modbus_connect handle; call_usleep 100000;
             call_modbus_connect handle]) /\
  connect offline (boot busy_thrice)
  = Some ((false,
           Session handle false
             "Connection failed: Resource temporarily unavailable"),
          Machine (Make EWOULDBLOCK [])
            [call_modbus_connect handle; call_usleep 100000;
             call_modbus_connect handle; call_usleep 100000;
             call_modbus_connect handle]).
Proof.
  split.
  - pose proof (connect_retries_on_would_block offline (boot busy_twice))
      as Hcases.
    cbv beta iota zeta delta [ctx_ offline handle connected_] in Hcases.
    specialize (Hcases ltac:(discriminate) eq_refl).
    vm_compute in Hcases.
    destruct Hcases as (_ & _ & _ & _ & Hthird & _).
    refine (eq_trans _ (Hthird _ _ _ _ _)); try reflexivity;
      first [discriminate | left; reflexivity].
  - pose proof (connect_retries_on_would_block offline (boot busy_thrice))
      as Hcases.
    cbv beta iota zeta delta [ctx_ offline handle connected_] in Hcases.
    specialize (Hcases ltac:(discriminate) eq_refl).
    vm_compute in Hcases.
    destruct Hcases as (_ & _ & _ & _ & _ & Hlast & _).
    refine (eq_trans _ (Hlast _ _ _ _ _)); try reflexivity;
      first [discriminate | left; reflexivity].
Defined.

Lemma retry_exhausted_unreachable_run :
  exists dest m',
    execute_with_data_error_retry 5 handle "" "Read failed: "
      (attempt read7 handle) [0] (boot noisy_twice)
    = Some ((false, "Read failed: Invalid exception code", dest), m').
Proof.
  pose (m3 := Machine (Make EMBBADEXC [])
            [call_modbus_read_registers handle 7 1;
             call_modbus_get_socket handle;
             call_recv 4 256 64; call_recv 4 256 64;
             call_modbus_read_registers handle 7 1]).
  assert (Hrun :
    execute_with_data_error_retry 5 handle "" "Read failed: "
      (attempt read7 handle) [0] (boot noisy_twice)
    = Some ((false, "Read failed: Invalid exception code", [0]), m3))
    by reflexivity.
  destruct (proj2 (retry_exhausted_unreachable 5 handle "" "Read failed: "
                     (attempt read7 handle) [0] (boot noisy_twice))
              _ _ _ _ Hrun) as [[Hok _]|[_ Hmsg]].
  - discriminate.
  - exists [0], m3. exact Hrun.
Defined.

Lemma connected_implies_handle_run :
  exists objs m' s,
    run 5 program ∅ (boot program_replies) = Some (objs, m') /\
    objs !! 0%nat = Some s /\
    connected_ s = true /\
    ctx_ s <> None.
Proof.
  destruct (run 5 program ∅ (boot program_replies)) as [[objs m']|] eqn:Hrun;
    [|vm_compute in Hrun; discriminate].
  assert (Hzero : objs !! 0%nat = Some (Session handle true "")).
  { vm_compute in Hrun. injection Hrun as <- _. reflexivity. }
  exists objs, m', (Session handle true "").
  split; [reflexivity|]. split; [exact Hzero|]. split; [reflexivity|].
  exact (proj1 (connected_implies_handle 5) program (boot program_replies)
           m' objs Hrun 0%nat _ Hzero eq_refl).
Defined.

Lemma success_keeps_last_error_run :
  exists this' out m',
    invoke 5 read7 online (boot noisy_then_good)
    = Some ((true, this', out), m') /\
    get_last_error this' = "Read failed: Connection timed out".
Proof.
  destruct (invoke 5 read7 online (boot noisy_then_good))
    as [[[[[] this'] out] m']|] eqn:Hrun;
    try (vm_compute in Hrun; discriminate).
  exists this', out, m'. split; [reflexivity|].
  exact (proj1 (proj2 (success_keeps_last_error 5))
           read7 online (boot noisy_then_good) m' this' out Hrun).
Defined.

Lemma failed_allocation_is_dead_end_run :
  exists m,
    (do this <- ModbusConnection "192.168.1.10" 502;
     members 5 probes this)%modbus (boot [ok 0])
    = Some (([Some false; Some false; None; None; Some false],
             Session None false "Invalid MODBUS context"), m) /\
    calls m = [call_modbus_new_tcp "192.168.1.10" 502].
Proof.
  destruct (failed_allocation_is_dead_end (L:=libmodbus)
              5 "192.168.1.10" 502 (boot [ok 0]) (Make 0 []) eq_refl)
    as (this & Hnew & -> & Hdead).
  eexists. split.
  - unfold bind. rewrite Hnew, (Hdead probes). reflexivity.
  - reflexivity.
Defined.

(** C6 as the spec words it fails: after a failed allocation a register
    read does not report an invalid context, it reports "Not
    connected". *)
Lemma failed_allocation_read_says_not_connected :
  ~ (forall q : request,
        exists this' out m',
          (do this <- ModbusConnection "192.168.1.10" 502;
           invoke 5 q this)%modbus (boot [ok 0])
          = Some ((false, this', out), m') /\
          get_last_error this' = "Invalid MODBUS context").
Proof.
  intros Hall.
  destruct (Hall read7) as (this' & out & m' & Hrun & Hmsg).
  vm_compute in Hrun. injection Hrun as <- _ _.
  discriminate Hmsg.
Qed.

Lemma failure_changes_last_error_only_run :
  invoke 5 read7 clean (boot timed_out)
  = Some ((false,
           Session handle true "Read failed: Connection timed out",
           out_value 0),
          Machine (Make ETIMEDOUT [])
            [call_modbus_read_registers handle 7 1]) /\
  out_value 0 = out_before read7.
Proof.
  pose (m' := Machine (Make ETIMEDOUT [])
                [call_modbus_read_registers handle 7 1]).
  pose (this' := Session handle true "Read failed: Connection timed out").
  assert (Hrun : invoke 5 read7 clean (boot timed_out)
                 = Some ((false, this', out_value 0), m')) by reflexivity.
  split; [exact Hrun|].
  destruct (failure_changes_last_error_only
              5 read7 clean (boot timed_out) m' this' (out_value 0) Hrun)
    as (_ & Hout & _).
  apply Hout. split; intros ctx addr nb dest w;
    change (let '(rc, dest', _) := reads dest w in rc = -1 -> dest' = dest);
    unfold reads; destruct (next w) as [r w']; intros ->; reflexivity.
Defined.

Lemma connect_again_is_free_run :
  connect (Session handle true "")
    (Machine (Make 0 []) [call_modbus_connect handle])
  = Some ((true, Session handle true ""),
          Machine (Make 0 []) [call_modbus_connect handle]).
Proof.
  exact (connect_again_is_free offline (boot opens_at_once)
           (Machine (Make 0 []) [call_modbus_connect handle])
           (Session handle true "") eq_refl).
Defined.

Lemma connect_disconnect_round_trip_run :
  disconnect (Session handle true "")
    (Machine (Make 0 []) [call_modbus_connect handle])
  = Some (offline,
          Machine (Make 0 [])
            [call_modbus_connect handle; call_modbus_close handle]).
Proof.
  exact (connect_disconnect_round_trip offline (boot opens_at_once)
           (Machine (Make 0 []) [call_modbus_connect handle])
           (Session handle true "") eq_refl eq_refl).
Defined.

Lemma disconnect_is_idempotent_run :
  (exists this' m',
      disconnect online (boot []) = Some (this', m') /\
      is_connected this' = false /\
      calls m' = [call_modbus_close handle] /\
      disconnect this' m' = Some (this', m')) /\
  disconnect orphan (boot []) = Some (orphan, boot []) /\
  is_connected orphan = true.
Proof.
  split; [|split; [|reflexivity]].
  - destruct (disconnect_is_idempotent online (boot []))
      as (this' & m' & Hrun & _ & _ & Hoff & _ & Hlog & Hagain).
    exists this', m'. split; [exact Hrun|]. split; [|split].
    + apply Hoff. discriminate.
    + exact Hlog.
    + exact Hagain.
  - destruct (disconnect_is_idempotent orphan (boot []))
      as (this' & m' & Hrun & _ & _ & _ & Hnull & _).
    destruct (Hnull eq_refl) as [-> ->]. exact Hrun.
Defined.

Lemma destructor_releases_once_run :
  exists this' m',
    ModbusConnection_destructor online (boot []) = Some (this', m') /\
    ctx_ this' = None /\
    calls m' = [call_modbus_close handle; call_modbus_free handle].
Proof.
  destruct (destructor_releases_once online (boot []))
    as (this' & m' & Hrun & Hnull & _ & Hlog & _).
  exists this', m'. split; [exact Hrun|]. split; [exact Hnull|exact Hlog].
Defined.

Lemma set_slave_id_outcomes_run :
  set_slave_id offline 300 (boot bad_slave)
  = Some ((false, Session handle false "Set slave failed: Unknown error"),
          Machine (Make EINVAL []) [call_modbus_set_slave handle 300]).
Proof.
  pose proof (set_slave_id_outcomes offline 300 (boot bad_slave)) as Hcases.
  vm_compute in Hcases. destruct Hcases as (_ & Hfail & _).
  refine (eq_trans _ (Hfail _ eq_refl)); [reflexivity|discriminate].
Defined.

Lemma first_attempt_success_run :
  invoke 5 read7 online (boot good_read)
  = Some ((true, online, out_value 42),
          Machine (Make 0 []) [call_modbus_read_registers handle 7 1]).
Proof.
  refine (proj1 (first_attempt_success 5 read7 online (boot good_read)
                   (Machine (Make 0 [])
                      [call_modbus_read_registers handle 7 1])
                   1 [42] eq_refl eq_refl _)).
  discriminate.
Defined.

Lemma wrapper_call_budget_run :
  exists result this' out m',
    invoke 5 read7 online (boot noisy_then_good)
    = Some ((result, this', out), m') /\
    is_connected this' = true /\
    attempts_made (calls m') = 2%nat /\
    drain_invocations (calls m') = 1%nat.
Proof.
  destruct (invoke 5 read7 online (boot noisy_then_good))
    as [[[[r this'] out] m']|] eqn:Hrun;
    [|vm_compute in Hrun; discriminate].
  destruct (wrapper_call_budget 5 read7 online (boot noisy_then_good)
              m' r this' out Hrun)
    as (_ & Hflag & new & Hlog & _ & Hdrains & _).
  specialize (Hdrains eq_refl).
  assert (Hnew : calls m' = new) by (rewrite Hlog; reflexivity).
  exists r, this', out, m'. split; [reflexivity|]. split; [exact Hflag|].
  rewrite Hnew, Hdrains. rewrite <- Hnew.
  vm_compute in Hrun. injection Hrun as _ _ _ <-. split; reflexivity.
Defined.

Lemma read_coil_converts_byte_run :
  (exists this' m',
      read_coil 5 online 3 false (boot coil_on)
      = Some ((true, this', true), m')) /\
  (exists this' m',
      read_coil 5 online 3 true (boot coil_unwritten)
      = Some ((true, this', false), m')).
Proof.
  split.
  - destruct (read_coil 5 online 3 false (boot coil_on))
      as [[[[[] this'] value'] m']|] eqn:Hrun;
      try (vm_compute in Hrun; discriminate).
    pose proof (read_coil_converts_byte 5 online 3 false (boot coil_on)
                  m' this' value' Hrun) as Hbyte.
    vm_compute in Hbyte. destruct Hbyte as (dest & -> & _ & Hfirst & _).
    destruct (Hfirst ltac:(discriminate)) as [-> _].
    exists this', m'. reflexivity.
  - destruct (read_coil 5 online 3 true (boot coil_unwritten))
      as [[[[[] this'] value'] m']|] eqn:Hrun;
      try (vm_compute in Hrun; discriminate).
    pose proof (read_coil_converts_byte 5 online 3 true (boot coil_unwritten)
                  m' this' value' Hrun) as Hbyte.
    vm_compute in Hbyte. destruct Hbyte as (dest & _ & _ & _ & _ & Hzero).
    rewrite (Hzero ltac:(discriminate) eq_refl).
    exists this', m'. reflexivity.
Defined.

Lemma drain_returns_when_quiet_run :
  exists m',
    drain_socket_nonblocking 5 handle (boot one_chunk) = Some (tt, m') /\
    calls m' = [call_modbus_get_socket handle;
                call_recv 4 256 64; call_recv 4 256 64].
Proof.
  pose proof (drain_returns_when_quiet 1 handle (boot one_chunk) 5
                ltac:(lia)) as Hcases.
  vm_compute in Hcases. destruct Hcases as [_ Hquiet].
  destruct (Hquiet ltac:(discriminate) ltac:(right; left; discriminate))
    as (m' & j & Hrun & _ & _).
  exists m'. injection Hrun as <-. split; reflexivity.
Defined.

Lemma failure_overwrites_last_error_run :
  invoke 5 read7 (set_last_error online "Write failed: Invalid CRC")
    (boot timed_out)
  = Some ((false,
           Session handle true "Read failed: Connection timed out",
           out_value 0),
          Machine (Make ETIMEDOUT [])
            [call_modbus_read_registers handle 7 1]).
Proof.
  exact (failure_overwrites_last_error 5 read7 online
           "Write failed: Invalid CRC" (boot timed_out) _ _ _ eq_refl).
Defined.

Lemma exec_keeps_handles_exclusive_run :
  exists objs' m',
    exec 5 (cmd_construct 1 "192.168.1.11" 502)
      {[0%nat := online]} (boot second_handle) = Some (objs', m') /\
    exclusive_handles objs'.
Proof.
  destruct (exec 5 (cmd_construct 1 "192.168.1.11" 502)
              {[0%nat := online]} (boot second_handle))
    as [[objs' m']|] eqn:Hrun; [|vm_compute in Hrun; discriminate].
  exists objs', m'. split; [reflexivity|].
  refine (exec_keeps_handles_exclusive 5 _ _ objs' _ m' _ _ Hrun).
  - intros i j s t Hij Hi Hj.
    apply lookup_singleton_Some in Hi as [<- _].
    apply lookup_singleton_Some in Hj as [<- _]. contradiction.
  - intros this ip_address port j t [= _ <- <-] Hj _.
    apply lookup_singleton_Some in Hj as [_ <-]. discriminate.
Defined.

Lemma member_calls_keep_handle_run :
  exists this' m',
    members 5 routine online (boot routine_replies)
    = Some (([None; Some true; None], this'), m') /\
    get_context this' = handle /\
    get_last_error this' = "Read failed: Connection timed out".
Proof.
  destruct (members 5 routine online (boot routine_replies))
    as [[[results this'] m']|] eqn:Hrun;
    [|vm_compute in Hrun; discriminate].
  destruct (member_calls_keep_handle 5 routine online (boot routine_replies)
              m' results this' Hrun) as (Hctx & Hmsg).
  assert (Hres : results = [None; Some true; None]).
  { vm_compute in Hrun. injection Hrun as <- _ _. reflexivity. }
  subst results. exists this', m'. split; [reflexivity|].
  split; [exact Hctx|]. apply Hmsg.
  repeat constructor; discriminate.
Defined.

End Runs.
